(** * Clusternet localizer: override ordering, merge and reconciliation

    A shallow embedding of [pkg/localizer] (the [Localizer] type with
    [getOverrides], [ApplyOverridesToDescription], [handleLocalization] and
    [handleGlobalization]) together with the properties that its design
    document states about it. *)

From Stdlib Require Import ZArith Lia Strings.Byte Sorted.
From stdpp Require Import base list strings gmap.

Local Open Scope Z_scope.

#[local] Set Warnings "-register-all".

(** ** API objects

    Only the fields that the localizer reads or writes are kept.  A slice is
    a list, the [nil] slice being the empty list; a pointer to an object is
    the object. *)

Definition bytes := list byte.

(** [metav1.Time]: an instant, as seconds since the Unix epoch and the
    nanoseconds within that second. *)
Record Time := mkTime { unixSec : Z; nsec : Z }.

(** [time.Time.Second]: "the second offset within the minute specified by t,
    in the range [0, 59]".  The location of the time does not matter as long
    as its offset from UTC is a whole number of minutes, which holds of UTC
    and of every zone in current use. *)
Definition Second (t : Time) : Z := unixSec t mod 60.

(** [time.Time.Before] *)
Definition Before (t u : Time) : bool :=
  (unixSec t <? unixSec u) || ((unixSec t =? unixSec u) && (nsec t <? nsec u)).

Record ObjectMeta := mkMeta {
  Name : string;
  Namespace : string;
  UID : string;
  Labels : gmap string string;
  Finalizers : list string;
  DeletionTimestamp : option Time;
  CreationTimestamp : Time }.

Module Feed.
Record t := mk {
    Kind : string;
    APIVersion : string;
    Namespace : string;
    Name : string }.
End Feed.

Module OverrideConfig.
Record t := mk {
    Name : string;
    Value : string;
    Type' : string }.
End OverrideConfig.

Record LocalizationSpec := mkLocSpec {
  loc_OverridePolicy : string;
  loc_Overrides : list OverrideConfig.t;
  loc_Priority : Z;
  loc_Feed : Feed.t }.

Record Localization := mkLoc {
  loc_meta : ObjectMeta;
  loc_Spec : LocalizationSpec }.

Record GlobalizationSpec := mkGlobSpec {
  glob_OverridePolicy : string;
  glob_Overrides : list OverrideConfig.t;
  glob_Priority : Z;
  glob_Feed : Feed.t }.

Record Globalization := mkGlob {
  glob_meta : ObjectMeta;
  glob_Spec : GlobalizationSpec }.

Record HelmChart := mkChart { chart_meta : ObjectMeta }.

Record Manifest := mkManifest { manifest_meta : ObjectMeta }.

Record ChartReference := mkChartRef {
  cref_Namespace : string;
  cref_Name : string }.

Record DescriptionSpec := mkDescSpec {
  Deployer : string;
  Charts : list ChartReference;
  Raw : list bytes }.

Record Description := mkDesc {
  desc_meta : ObjectMeta;
  desc_Spec : DescriptionSpec }.

(** [unstructured.Unstructured], reduced to the four accessors used. *)
Record Unstructured := mkUnstructured {
  GetKind : string;
  GetAPIVersion : string;
  GetNamespace : string;
  GetName : string }.

(** ** Errors

    A Go [error] value is [option error]; [None] is [nil]. *)
Inductive error :=
| NewNotFound (resource name : string)   (* apierrors.NewNotFound *)
| Errorf (msg : string)                  (* fmt.Errorf *)
| ExternalError (msg : string)           (* any error of a collaborator *)
| aggregate (errs : list error).         (* utilerrors.aggregate *)

(** [apierrors.IsNotFound] *)
Definition IsNotFound (e : error) : bool :=
  match e with NewNotFound _ _ => true | _ => false end.

(** [utilerrors.NewAggregate]: [nil] for an empty list, otherwise the
    aggregate of the list (the errors collected here are never [nil]). *)
Definition NewAggregate (errlist : list error) : option error :=
  match errlist with
  | [] => None
  | _ :: _ => Some (aggregate errlist)
  end.

(** A Go result pair [(T, error)]. *)
Inductive res (A : Type) :=
| Ok (a : A)
| Fail (e : error).
Arguments Ok {A} a.
Arguments Fail {A} e.

Definition bind {A B} (m : res A) (k : A -> res B) : res B :=
  match m with
  | Ok a => k a
  | Fail e => Fail e
  end.

Notation "x <- m ;; k" := (bind m (fun x => k))
  (at level 100, m at next level, right associativity).

(** ** [sort.SliceStable]

    The standard library sorts "keeping equal elements in their original
    order".  For a [less] that is a strict weak order that result is unique;
    it is computed here by insertion from the right, where a new element
    goes in front of the first element that is not strictly less. *)
Fixpoint insertStable {A} (less : A -> A -> bool) (x : A) (l : list A) : list A :=
  match l with
  | [] => [x]
  | y :: l' => if less y x then y :: insertStable less x l' else x :: y :: l'
  end.

Definition SliceStable {A} (less : A -> A -> bool) (l : list A) : list A :=
  foldr (insertStable less) [] l.

(** [mayPrecede less a b]: a slice sorted by [less] may hold [a] in front
    of [b]. *)
Definition mayPrecede {A} (less : A -> A -> bool) (a b : A) : Prop := less b a = false.

(** The [less] closures of [getOverrides]. *)
Definition lessGlob (a b : Globalization) : bool :=
  if glob_Priority (glob_Spec a) =? glob_Priority (glob_Spec b)
  then Second (CreationTimestamp (glob_meta a)) <? Second (CreationTimestamp (glob_meta b))
  else glob_Priority (glob_Spec a) <? glob_Priority (glob_Spec b).

Definition lessLoc (a b : Localization) : bool :=
  if loc_Priority (loc_Spec a) =? loc_Priority (loc_Spec b)
  then Second (CreationTimestamp (loc_meta a)) <? Second (CreationTimestamp (loc_meta b))
  else loc_Priority (loc_Spec a) <? loc_Priority (loc_Spec b).

(** [schema.GroupVersionKind], reduced to the fields used. *)
Record GroupVersionKind := mkGVK { gvk_Version : string; gvk_Kind : string }.

(** ** The localizer *)

(** The listers are read-only views of the informer caches; a selector built
    by [labels.SelectorFromSet] is represented by its label set. *)
Record Localizer := mkLocalizer {
  (* clusternetClient.AppsV1alpha1().Localizations(ns).Update *)
  updateLocalization : string -> Localization -> option error;
  (* clusternetClient.AppsV1alpha1().Globalizations().Update *)
  updateGlobalization : Globalization -> option error;
  (* locLister.Localizations(ns).List(selector) *)
  locLister : string -> gmap string string -> res (list Localization);
  (* globLister.List(selector) *)
  globLister : gmap string string -> res (list Globalization);
  (* chartLister.HelmCharts(ns).Get(name) *)
  chartLister : string -> string -> res HelmChart;
  (* manifestLister.Manifests(ns).List(selector) *)
  manifestLister : string -> gmap string string -> res (list Manifest);
  chartCallback : HelmChart -> option error;
  manifestCallback : Manifest -> option error;
  reservedNamespace : string }.

Definition ManifestLister := string -> gmap string string -> res (list Manifest).

(** What a reconcile handler does to its collaborators, in order.  A handler
    calls each collaborator at most once, and only the error that the call
    returns decides how the handler goes on: the callbacks and the client
    are functions from the argument of the call to that error, and the calls
    made are recorded as effects. *)
Inductive Effect :=
| CalledChartCallback (chart : HelmChart)
| CalledManifestCallback (manifest : Manifest)
| RecordedEvent (object eventtype reason message : string)
| UpdatedLocalization (namespace : string) (loc : Localization)
| UpdatedGlobalization (glob : Globalization).

(** How the [switch] on the override policy is left: by falling out of it
    ([break], or the end of a case) or by returning from the handler. *)
Inductive Flow :=
| Break
| Return (err : option error).

(** Modelled from the spec: [utils.RemoveString], which is declared in
    package [utils]; the handlers use it to "remove this engine's finalizer
    token from the object's finalizer set". *)
Definition RemoveString (slice : list string) (s : string) : list string :=
  List.filter (fun item => negb (String.eqb item s)) slice.

Definition setFinalizers (m : ObjectMeta) (finalizers : list string) : ObjectMeta :=
  mkMeta (Name m) (Namespace m) (UID m) (Labels m) finalizers
         (DeletionTimestamp m) (CreationTimestamp m).

Definition setRaw (desc : Description) (raw : list bytes) : Description :=
  mkDesc (desc_meta desc)
         (mkDescSpec (Deployer (desc_Spec desc)) (Charts (desc_Spec desc)) raw).

(** [corev1.EventTypeWarning] *)
Definition EventTypeWarning : string := "Warning".

(** Declarations of packages [appsapi], [known] and [utils] and of the rest
    of package [localizer] that the code below uses.  The localizer is
    verified for any value of the constants and any behaviour of the
    helpers. *)
Class Packages := {
  (* appsapi.SchemeGroupVersion.Version *)
  SchemeGroupVersion_Version : string;
  (* appsapi.ApplyNow, appsapi.ApplyLater *)
  ApplyNow : string;
  ApplyLater : string;
  (* appsapi.DescriptionHelmDeployer, appsapi.DescriptionGenericDeployer *)
  DescriptionHelmDeployer : string;
  DescriptionGenericDeployer : string;
  (* known.AppFinalizer *)
  AppFinalizer : string;
  (* utils.ListManifestsBySelector(reservedNamespace, manifestLister, feed);
     the lister builds its result by appending to a nil slice, so that the
     result is nil exactly when it is empty *)
  ListManifestsBySelector : string -> ManifestLister -> Feed.t -> res (list Manifest);
  (* applyOverrides(genericResult, overrides) *)
  applyOverrides : bytes -> list OverrideConfig.t -> res bytes;
  (* json.Unmarshal into an unstructured.Unstructured *)
  json_Unmarshal : bytes -> res Unstructured }.

Section Localizer.

Context `{Packages}.

Definition chartKind : GroupVersionKind :=
  mkGVK SchemeGroupVersion_Version "HelmChart".

(** *** [getOverrides] *)

(** The [switch feed.Kind] block, which sets [uid]. *)
Definition targetUID (l : Localizer) (feed : Feed.t) : res string :=
  if String.eqb (Feed.Kind feed) (gvk_Kind chartKind) then
    chart <- chartLister l (Feed.Namespace feed) (Feed.Name feed) ;;
    Ok (UID (chart_meta chart))
  else
    manifests <- ListManifestsBySelector (reservedNamespace l) (manifestLister l) feed ;;
    match manifests with
    | [] => Fail (NewNotFound (Feed.Kind feed) (Feed.Name feed))
    | m :: _ => Ok (UID (manifest_meta m))
    end.

(** The two [for] loops at the end. *)
Definition appendGlobs (all : list OverrideConfig.t) (globs : list Globalization)
  : list OverrideConfig.t :=
  fold_left (fun all glob =>
               match DeletionTimestamp (glob_meta glob) with
               | Some _ => all
               | None => all ++ glob_Overrides (glob_Spec glob)
               end) globs all.

Definition appendLocs (all : list OverrideConfig.t) (locs : list Localization)
  : list OverrideConfig.t :=
  fold_left (fun all loc =>
               match DeletionTimestamp (loc_meta loc) with
               | Some _ => all
               | None => all ++ loc_Overrides (loc_Spec loc)
               end) locs all.

Definition getOverrides (l : Localizer) (namespace : string) (feed : Feed.t)
  : res (list OverrideConfig.t) :=
  uid <- targetUID l feed ;;
  globs <- globLister l {[ uid := Feed.Kind feed ]} ;;
  let globs := SliceStable lessGlob globs in
  locs <- locLister l namespace {[ uid := Feed.Kind feed ]} ;;
  let locs := SliceStable lessLoc locs in
  let allOverrideConfigs := appendGlobs [] globs in
  let allOverrideConfigs := appendLocs allOverrideConfigs locs in
  Ok allOverrideConfigs.

(** *** [ApplyOverridesToDescription]

    The description is mutated through its pointer; the embedding returns
    the description as the call leaves it, next to the returned error.  The
    loops range over [descCopy], the deep copy taken on entry, and write
    into [desc.Spec.Raw]. *)
Definition chartFeed (chartRef : ChartReference) : Feed.t :=
  Feed.mk (gvk_Kind chartKind) (gvk_Version chartKind)
          (cref_Namespace chartRef) (cref_Name chartRef).

Definition objectFeed (obj : Unstructured) : Feed.t :=
  Feed.mk (GetKind obj) (GetAPIVersion obj) (GetNamespace obj) (GetName obj).

Fixpoint helmLoop (l : Localizer) (namespace : string) (idx : nat)
    (charts : list ChartReference) (raw : list bytes) (allErrs : list error)
  : list bytes * list error :=
  match charts with
  | [] => (raw, allErrs)
  | chartRef :: charts' =>
      match getOverrides l namespace (chartFeed chartRef) with
      | Fail err => helmLoop l namespace (S idx) charts' raw (allErrs ++ [err])
      | Ok overrides =>
          (* use a whitespace explicitly *)
          match applyOverrides [x20] overrides with
          | Fail err => helmLoop l namespace (S idx) charts' raw (allErrs ++ [err])
          | Ok result => helmLoop l namespace (S idx) charts' (<[idx := result]> raw) allErrs
          end
      end
  end.

Fixpoint genericLoop (l : Localizer) (namespace : string) (idx : nat)
    (rawObjects : list bytes) (raw : list bytes) (allErrs : list error)
  : list bytes * list error :=
  match rawObjects with
  | [] => (raw, allErrs)
  | rawObject :: rawObjects' =>
      match json_Unmarshal rawObject with
      | Fail err => genericLoop l namespace (S idx) rawObjects' raw (allErrs ++ [err])
      | Ok obj =>
          match getOverrides l namespace (objectFeed obj) with
          | Fail err => genericLoop l namespace (S idx) rawObjects' raw (allErrs ++ [err])
          | Ok overrides =>
              match applyOverrides rawObject overrides with
              | Fail err => genericLoop l namespace (S idx) rawObjects' raw (allErrs ++ [err])
              | Ok result =>
                  genericLoop l namespace (S idx) rawObjects' (<[idx := result]> raw) allErrs
              end
          end
      end
  end.

Definition ApplyOverridesToDescription (l : Localizer) (desc : Description)
  : Description * option error :=
  let descCopy := desc in
  let namespace := Namespace (desc_meta descCopy) in
  if String.eqb (Deployer (desc_Spec descCopy)) DescriptionHelmDeployer then
    let raw := replicate (length (Charts (desc_Spec descCopy))) ([] : bytes) in
    let '(raw, allErrs) :=
      helmLoop l namespace 0 (Charts (desc_Spec descCopy)) raw [] in
    (setRaw desc raw, NewAggregate allErrs)
  else if String.eqb (Deployer (desc_Spec descCopy)) DescriptionGenericDeployer then
    let '(raw, allErrs) :=
      genericLoop l namespace 0 (Raw (desc_Spec descCopy)) (Raw (desc_Spec desc)) [] in
    (setRaw desc raw, NewAggregate allErrs)
  else
    (desc, Some (Errorf ("unsupported deployer " +:+ Deployer (desc_Spec descCopy)))).

(** *** The reconcile handlers

    A handler returns what it did to its collaborators next to its error. *)
Definition policyLocalization (l : Localizer) (loc : Localization) : list Effect * Flow :=
  let spec := loc_Spec loc in
  let feed := loc_Feed spec in
  if String.eqb (loc_OverridePolicy spec) ApplyNow then
    if String.eqb (Feed.Kind feed) (gvk_Kind chartKind) then
      match chartLister l (Feed.Namespace feed) (Feed.Name feed) with
      | Fail err => if IsNotFound err then ([], Break) else ([], Return (Some err))
      | Ok chart =>
          match chartCallback l chart with
          | Some err => ([CalledChartCallback chart], Return (Some err))
          | None => ([CalledChartCallback chart], Break)
          end
      end
    else
      match ListManifestsBySelector (reservedNamespace l) (manifestLister l) feed with
      | Fail err => ([], Return (Some err))
      | Ok [] => ([], Break)
      | Ok (manifest :: _) =>
          match manifestCallback l manifest with
          | Some err => ([CalledManifestCallback manifest], Return (Some err))
          | None => ([CalledManifestCallback manifest], Break)
          end
      end
  else if String.eqb (loc_OverridePolicy spec) ApplyLater then ([], Break)
  else
    let msg := "unsupported OverridePolicy " +:+ loc_OverridePolicy spec in
    (* will not sync such invalid objects again *)
    ([RecordedEvent (Name (loc_meta loc)) EventTypeWarning "InvalidOverridePolicy" msg],
     Return None).

Definition handleLocalization (l : Localizer) (loc : Localization)
  : list Effect * option error :=
  let '(done, flow) := policyLocalization l loc in
  match flow with
  | Return err => (done, err)
  | Break =>
      match DeletionTimestamp (loc_meta loc) with
      | Some _ =>
          (* remove finalizer *)
          let locCopy :=
            mkLoc (setFinalizers (loc_meta loc)
                     (RemoveString (Finalizers (loc_meta loc)) AppFinalizer))
                  (loc_Spec loc) in
          let err := updateLocalization l (Namespace (loc_meta locCopy)) locCopy in
          (done ++ [UpdatedLocalization (Namespace (loc_meta locCopy)) locCopy], err)
      | None => (done, None)
      end
  end.

Definition policyGlobalization (l : Localizer) (glob : Globalization) : list Effect * Flow :=
  let spec := glob_Spec glob in
  let feed := glob_Feed spec in
  if String.eqb (glob_OverridePolicy spec) ApplyNow then
    if String.eqb (Feed.Kind feed) (gvk_Kind chartKind) then
      match chartLister l (Feed.Namespace feed) (Feed.Name feed) with
      | Fail err => if IsNotFound err then ([], Break) else ([], Return (Some err))
      | Ok chart =>
          match chartCallback l chart with
          | Some err => ([CalledChartCallback chart], Return (Some err))
          | None => ([CalledChartCallback chart], Break)
          end
      end
    else
      match ListManifestsBySelector (reservedNamespace l) (manifestLister l) feed with
      | Fail err => ([], Return (Some err))
      | Ok [] => ([], Break)
      | Ok (manifest :: _) =>
          match manifestCallback l manifest with
          | Some err => ([CalledManifestCallback manifest], Return (Some err))
          | None => ([CalledManifestCallback manifest], Break)
          end
      end
  else if String.eqb (glob_OverridePolicy spec) ApplyLater then ([], Break)
  else
    let msg := "unsupported OverridePolicy " +:+ glob_OverridePolicy spec in
    (* will not sync such invalid objects again until the spec gets changed *)
    ([RecordedEvent (Name (glob_meta glob)) EventTypeWarning "InvalidOverridePolicy" msg],
     Return None).

Definition handleGlobalization (l : Localizer) (glob : Globalization)
  : list Effect * option error :=
  let '(done, flow) := policyGlobalization l glob in
  match flow with
  | Return err => (done, err)
  | Break =>
      match DeletionTimestamp (glob_meta glob) with
      | Some _ =>
          (* remove finalizer *)
          let globCopy :=
            mkGlob (setFinalizers (glob_meta glob)
                      (RemoveString (Finalizers (glob_meta glob)) AppFinalizer))
                   (glob_Spec glob) in
          let err := updateGlobalization l globCopy in
          (done ++ [UpdatedGlobalization globCopy], err)
      | None => (done, None)
      end
  end.

End Localizer.

(** ** Notions used to state the properties *)

(** A declaration is active when it is not pending deletion. *)
Definition activeGlob (glob : Globalization) : bool :=
  match DeletionTimestamp (glob_meta glob) with None => true | Some _ => false end.

Definition activeLoc (loc : Localization) : bool :=
  match DeletionTimestamp (loc_meta loc) with None => true | Some _ => false end.

Definition overridesOfGlobs (globs : list Globalization) : list OverrideConfig.t :=
  flat_map (fun glob => glob_Overrides (glob_Spec glob)) globs.

Definition overridesOfLocs (locs : list Localization) : list OverrideConfig.t :=
  flat_map (fun loc => loc_Overrides (loc_Spec loc)) locs.

Definition priorityLeGlob (a b : Globalization) : Prop :=
  glob_Priority (glob_Spec a) <= glob_Priority (glob_Spec b).

Definition priorityLeLoc (a b : Localization) : Prop :=
  loc_Priority (loc_Spec a) <= loc_Priority (loc_Spec b).

Definition mapRes {A} (f : list A -> list A) (r : res (list A)) : res (list A) :=
  match r with
  | Ok l => Ok (f l)
  | Fail e => Fail e
  end.

(** The same localizer over caches from which the declarations pending
    deletion have been taken out. *)
Definition dropPending (l : Localizer) : Localizer :=
  mkLocalizer (updateLocalization l) (updateGlobalization l)
    (fun ns selector => mapRes (List.filter activeLoc) (locLister l ns selector))
    (fun selector => mapRes (List.filter activeGlob) (globLister l selector))
    (chartLister l) (manifestLister l) (chartCallback l) (manifestCallback l)
    (reservedNamespace l).

(** The errors of a pass over the entries, in the order of the entries. *)
Fixpoint failures {A} (outcomes : list (res A)) : list error :=
  match outcomes with
  | [] => []
  | Ok _ :: outcomes' => failures outcomes'
  | Fail e :: outcomes' => e :: failures outcomes'
  end.

Definition isCallback (e : Effect) : bool :=
  match e with
  | CalledChartCallback _ | CalledManifestCallback _ => true
  | _ => false
  end.

Definition isUpdate (e : Effect) : bool :=
  match e with
  | UpdatedLocalization _ _ | UpdatedGlobalization _ => true
  | _ => false
  end.

Section Entries.

Context `{Packages}.

(** What one chart reference, or one raw object, goes through in
    [ApplyOverridesToDescription], taken on its own. *)
Definition helmEntry (l : Localizer) (namespace : string) (chartRef : ChartReference)
  : res bytes :=
  overrides <- getOverrides l namespace (chartFeed chartRef) ;;
  applyOverrides [x20] overrides.

Definition genericEntry (l : Localizer) (namespace : string) (rawObject : bytes)
  : res bytes :=
  obj <- json_Unmarshal rawObject ;;
  overrides <- getOverrides l namespace (objectFeed obj) ;;
  applyOverrides rawObject overrides.

(** The payload that an entry holds after the pass, from the payload
    [before] that its slot held when the loop started. *)
Definition patched (before : bytes) (outcome : res bytes) : bytes :=
  match outcome with
  | Ok result => result
  | Fail _ => before
  end.

Definition entryOutcomes (l : Localizer) (desc : Description) : list (res bytes) :=
  if String.eqb (Deployer (desc_Spec desc)) DescriptionHelmDeployer
  then map (helmEntry l (Namespace (desc_meta desc))) (Charts (desc_Spec desc))
  else map (genericEntry l (Namespace (desc_meta desc))) (Raw (desc_Spec desc)).

(** The slots of [desc.Spec.Raw] when the loop over the entries starts: one
    empty slot per chart reference in the first mode, the raw objects
    themselves in the other. *)
Definition initialSlots (desc : Description) : list bytes :=
  if String.eqb (Deployer (desc_Spec desc)) DescriptionHelmDeployer
  then replicate (length (Charts (desc_Spec desc))) []
  else Raw (desc_Spec desc).

Definition supportedDeployer (desc : Description) : Prop :=
  Deployer (desc_Spec desc) = DescriptionHelmDeployer
  \/ Deployer (desc_Spec desc) = DescriptionGenericDeployer.

(** The copies that the handlers send to the API server. *)
Definition locCopyOf (loc : Localization) : Localization :=
  mkLoc (setFinalizers (loc_meta loc)
           (RemoveString (Finalizers (loc_meta loc)) AppFinalizer))
        (loc_Spec loc).

Definition globCopyOf (glob : Globalization) : Globalization :=
  mkGlob (setFinalizers (glob_meta glob)
            (RemoveString (Finalizers (glob_meta glob)) AppFinalizer))
         (glob_Spec glob).

(** Both kinds of declaration, to state once what holds of both handlers. *)
Inductive Declaration :=
| ALocalization (loc : Localization)
| AGlobalization (glob : Globalization).

Definition handle (l : Localizer) (d : Declaration) : list Effect * option error :=
  match d with
  | ALocalization loc => handleLocalization l loc
  | AGlobalization glob => handleGlobalization l glob
  end.

Definition declMeta (d : Declaration) : ObjectMeta :=
  match d with
  | ALocalization loc => loc_meta loc
  | AGlobalization glob => glob_meta glob
  end.

Definition declPolicy (d : Declaration) : string :=
  match d with
  | ALocalization loc => loc_OverridePolicy (loc_Spec loc)
  | AGlobalization glob => glob_OverridePolicy (glob_Spec glob)
  end.

Definition declFeed (d : Declaration) : Feed.t :=
  match d with
  | ALocalization loc => loc_Feed (loc_Spec loc)
  | AGlobalization glob => glob_Feed (glob_Spec glob)
  end.

(** The update that removes the finalizer, and what the API server answers. *)
Definition finalizerUpdate (d : Declaration) : Effect :=
  match d with
  | ALocalization loc =>
      UpdatedLocalization (Namespace (loc_meta loc)) (locCopyOf loc)
  | AGlobalization glob => UpdatedGlobalization (globCopyOf glob)
  end.

Definition finalizerUpdateResult (l : Localizer) (d : Declaration) : option error :=
  match d with
  | ALocalization loc =>
      updateLocalization l (Namespace (loc_meta loc)) (locCopyOf loc)
  | AGlobalization glob => updateGlobalization l (globCopyOf glob)
  end.

Definition finalizersSent (d : Declaration) : list string :=
  match d with
  | ALocalization loc => Finalizers (loc_meta (locCopyOf loc))
  | AGlobalization glob => Finalizers (glob_meta (globCopyOf glob))
  end.

(** The target of [feed] does not exist: the chart lookup answers not-found,
    or the manifest selector matches nothing. *)
Definition targetMissing (l : Localizer) (feed : Feed.t) : Prop :=
  (Feed.Kind feed = gvk_Kind chartKind
   /\ exists err, chartLister l (Feed.Namespace feed) (Feed.Name feed) = Fail err
                  /\ IsNotFound err = true)
  \/ (Feed.Kind feed <> gvk_Kind chartKind
      /\ ListManifestsBySelector (reservedNamespace l) (manifestLister l) feed = Ok []).

(** The target of [feed] exists and its callback succeeds. *)
Definition targetRefreshed (l : Localizer) (feed : Feed.t) : Prop :=
  (Feed.Kind feed = gvk_Kind chartKind
   /\ exists chart, chartLister l (Feed.Namespace feed) (Feed.Name feed) = Ok chart
                    /\ chartCallback l chart = None)
  \/ (Feed.Kind feed <> gvk_Kind chartKind
      /\ exists first others,
           ListManifestsBySelector (reservedNamespace l) (manifestLister l) feed
           = Ok (first :: others)
           /\ manifestCallback l first = None).

(** The handler gets past the [switch] on the override policy. *)
Definition policyStepPasses (l : Localizer) (d : Declaration) : Prop :=
  (declPolicy d = ApplyNow
   /\ (targetMissing l (declFeed d) \/ targetRefreshed l (declFeed d)))
  \/ (declPolicy d <> ApplyNow /\ declPolicy d = ApplyLater).

End Entries.

Section HandlerNotions.

Context `{Packages}.

(** With the policy ApplyNow and an existing target, the handler makes the
    call [call], which returns [result]: the chart callback on the chart
    found, or the manifest callback on the first manifest listed. *)
Definition callbackOutcome (l : Localizer) (feed : Feed.t) (call : Effect)
    (result : option error) : Prop :=
  (Feed.Kind feed = gvk_Kind chartKind
   /\ exists chart, chartLister l (Feed.Namespace feed) (Feed.Name feed) = Ok chart
                    /\ call = CalledChartCallback chart
                    /\ result = chartCallback l chart)
  \/ (Feed.Kind feed <> gvk_Kind chartKind
      /\ exists first others,
           ListManifestsBySelector (reservedNamespace l) (manifestLister l) feed
           = Ok (first :: others)
           /\ call = CalledManifestCallback first
           /\ result = manifestCallback l first).

(** The lookup of the target fails with [err], in a way that the handler
    does not take for a missing target. *)
Definition lookupFails (l : Localizer) (feed : Feed.t) (err : error) : Prop :=
  (Feed.Kind feed = gvk_Kind chartKind
   /\ chartLister l (Feed.Namespace feed) (Feed.Name feed) = Fail err
   /\ IsNotFound err = false)
  \/ (Feed.Kind feed <> gvk_Kind chartKind
      /\ ListManifestsBySelector (reservedNamespace l) (manifestLister l) feed = Fail err).

(** What the handler does once past the policy step, after the effects
    [done]. *)
Definition finalizerStep (l : Localizer) (d : Declaration) (done : list Effect)
  : list Effect * option error :=
  match DeletionTimestamp (declMeta d) with
  | None => (done, None)
  | Some _ => (done ++ [finalizerUpdate d], finalizerUpdateResult l d)
  end.

End HandlerNotions.

(** ** The default binder of the scheduler

    [pkg/scheduler/framework/plugins/defaultbinder]. *)

Record SubscriptionStatus := mkSubStatus {
  BindingClusters : list string;
  SpecHash : Z;
  DesiredReleases : Z;
  CompletedReleases : Z }.

(** [appsapi.SubscriptionSpec] and [utils.HashSubscriptionSpec] are declared
    in other packages; the binder only hands the first to the second. *)
Class SubscriptionPackages := {
  SubscriptionSpec : Type;
  HashSubscriptionSpec : SubscriptionSpec -> Z }.

Module defaultbinder.

Section Binder.

Context `{SubscriptionPackages}.

Record Subscription := mkSubscription {
  sub_meta : ObjectMeta;
  sub_Spec : SubscriptionSpec;
  sub_Status : SubscriptionStatus }.

(** [framework.Handle], reduced to the one call that the binder makes:
    [ClientSet().AppsV1alpha1().Subscriptions(ns).UpdateStatus]. *)
Record Handle := mkHandle {
  UpdateStatus : string -> Subscription -> option error }.

Record DefaultBinder := mkBinder { handle : Handle }.

(** [framework.Status]; [framework.AsStatus] wraps an error in a status
    that is not [nil]. *)
Inductive Status :=
| AsStatus (err : error).

(** What a call of [Bind] leaves behind: the caller's slice, which is sorted
    in place, the status update sent, and the status returned. *)
Record Bound := mkBound {
  bound_clusters : list string;
  bound_namespace : string;
  bound_update : Subscription;
  bound_status : option Status }.

(** [New] *)
Definition New (handle : Handle) : DefaultBinder := mkBinder handle.

Definition Bind (pl : DefaultBinder) (sub : Subscription)
    (namespacedClusters : list string) : Bound :=
  (* use an ordered list *)
  let namespacedClusters := SliceStable String.ltb namespacedClusters in
  let subCopy := sub in
  let status :=
    mkSubStatus namespacedClusters
                (HashSubscriptionSpec (sub_Spec subCopy))
                (Z.of_nat (length namespacedClusters))
                (CompletedReleases (sub_Status subCopy)) in
  let subCopy := mkSubscription (sub_meta subCopy) (sub_Spec subCopy) status in
  let err := UpdateStatus (handle pl) (Namespace (sub_meta sub)) subCopy in
  mkBound namespacedClusters (Namespace (sub_meta sub)) subCopy
    match err with
    | Some err => Some (AsStatus err)
    | None => None
    end.

End Binder.

End defaultbinder.

(** ** The agent: cluster registration requests

    [pkg/agent/agent.go]. *)

(** [c] occurs in [s]. *)
Definition hasByte (c : Ascii.ascii) (s : string) : Prop :=
  In c (String.list_ascii_of_string s).

(** Constants of package [known]. *)
Class KnownNames := {
  NamePrefixForClusternetObjects : string;
  ClusterRegisteredByLabel : string;
  ClusternetAgentName : string;
  ClusterIDLabel : string;
  ClusterNameLabel : string }.

Module agent.

Import Stdlib.Strings.Ascii.

Definition byteIs (n : N) (c : Ascii.ascii) : bool := N.eqb (Ascii.N_of_ascii c) n.

(** The white space of one byte that [strings.TrimSpace] knows: tab, line
    feed, vertical tab, form feed, carriage return and space. *)
Definition asciiSpace (c : Ascii.ascii) : bool :=
  (N.leb 9 (Ascii.N_of_ascii c) && N.leb (Ascii.N_of_ascii c) 13) || byteIs 32 c.

(** The white space of three bytes in UTF-8: U+1680, U+2000 to U+200A,
    U+2028, U+2029, U+202F, U+205F and U+3000. *)
Definition spaceRune3 (c d e : Ascii.ascii) : bool :=
  (byteIs 225 c && byteIs 154 d && byteIs 128 e)
  || (byteIs 226 c && byteIs 128 d
      && ((N.leb 128 (Ascii.N_of_ascii e) && N.leb (Ascii.N_of_ascii e) 138)
          || byteIs 168 e || byteIs 169 e || byteIs 175 e))
  || (byteIs 226 c && byteIs 129 d && byteIs 159 e)
  || (byteIs 227 c && byteIs 128 d && byteIs 128 e).

(** [strings.TrimSpace(s) == ""]: [s] is made of white space only, that is,
    of runes for which [unicode.IsSpace] holds.  Besides the white space of
    one byte these are U+0085 and U+00A0, of two bytes in UTF-8, and the
    runes of three bytes above; a byte that starts none of these is kept by
    [TrimSpace]. *)
Fixpoint TrimSpace_isEmpty (s : string) : bool :=
  match s with
  | EmptyString => true
  | String c s1 =>
      if asciiSpace c then TrimSpace_isEmpty s1
      else
        match s1 with
        | EmptyString => false
        | String d s2 =>
            if byteIs 194 c then (byteIs 133 d || byteIs 160 d) && TrimSpace_isEmpty s2
            else
              match s2 with
              | EmptyString => false
              | String e s3 => spaceRune3 c d e && TrimSpace_isEmpty s3
              end
        end
  end.

(** [strings.Split(s, sep)] for a separator [sep] of one byte: the pieces of
    [s] between the occurrences of [sep], one more than there are
    occurrences. *)
Fixpoint Split (s : string) (sep : Ascii.ascii) : list string :=
  match s with
  | EmptyString => [EmptyString]
  | String c s' =>
      if Ascii.eqb c sep then EmptyString :: Split s' sep
      else
        match Split s' sep with
        | piece :: pieces => String c piece :: pieces
        | [] => [String c EmptyString]
        end
  end.

(** A Go map that may be [nil] is an optional [gmap]. *)
Definition parseClusterLabels (clusterLabels : string) : option (gmap string string) :=
  if TrimSpace_isEmpty clusterLabels then None
  else
    let clusterLabelsArray := Split clusterLabels ","%char in
    Some (fold_left
            (fun clusterLabelsMap labelString =>
               match Split labelString "="%char with
               | [key; value] => <[ key := value ]> clusterLabelsMap
               | _ => clusterLabelsMap
               end)
            clusterLabelsArray ∅).

Record ClusterRegistrationRequestSpec := mkCrrSpec {
  crr_ClusterID : string;
  crr_ClusterType : string;
  crr_ClusterName : string;
  crr_SyncMode : string;
  crr_ClusterLabels : option (gmap string string) }.

Record ClusterRegistrationRequest := mkCrr {
  crr_Name : string;
  crr_Labels : gmap string string;
  crr_Spec : ClusterRegistrationRequestSpec }.

Section Requests.

Context `{KnownNames}.

Definition generateClusterRegistrationRequestName (clusterID : string) : string :=
  NamePrefixForClusternetObjects +:+ clusterID.

(** [random] is what [utilrand.String(DefaultRandomUIDLength)] returns. *)
Definition generateClusterName (clusterName clusterNamePrefix random : string) : string :=
  if (String.length clusterName =? 0)%nat
  then clusterNamePrefix +:+ "-" +:+ random
  else clusterName.

Definition newClusterRegistrationRequest
    (clusterID clusterType clusterName clusterSyncMode clusterLabels : string)
  : ClusterRegistrationRequest :=
  mkCrr (generateClusterRegistrationRequestName clusterID)
        {[ ClusterRegisteredByLabel := ClusternetAgentName;
           ClusterIDLabel := clusterID;
           ClusterNameLabel := clusterName ]}
        (mkCrrSpec clusterID clusterType clusterName clusterSyncMode
                   (parseClusterLabels clusterLabels)).

End Requests.

(** The text of a list of labels: [k1=v1,k2=v2,...]. *)
Definition labelText (labels : list (string * string)) : string :=
  String.concat "," (map (fun kv => fst kv +:+ "=" +:+ snd kv) labels).

End agent.

(** ** Helm utilities

    [pkg/utils]: charts in repositories, and the credentials to fetch
    them. *)

Module utils.

(** What is left of [s] behind [prefix], when [s] starts with it. *)
Fixpoint stripPrefix (prefix s : string) : option string :=
  match prefix, s with
  | EmptyString, _ => Some s
  | String a prefix', String b s' =>
      if Ascii.eqb a b then stripPrefix prefix' s' else None
  | String _ _, EmptyString => None
  end.

(** [strings.HasPrefix] and [strings.TrimPrefix] *)
Definition HasPrefix (s prefix : string) : bool :=
  match stripPrefix prefix s with Some _ => true | None => false end.

Definition TrimPrefix (s prefix : string) : string :=
  match stripPrefix prefix s with Some rest => rest | None => s end.

(** [registry.OCIScheme] and [registry.IsOCI] of Helm *)
Definition OCIScheme : string := "oci".

Definition IsOCI (url : string) : bool := HasPrefix url (OCIScheme +:+ "://").

(** The registry client of Helm, reduced to the calls made on it. *)
Record RegistryClient := mkRegistryClient {
  WithResolver : bool -> bool -> option error;
  Tags : string -> res (list string) }.

(** The loop over the tags. *)
Fixpoint hasTag (tags : list string) (chartVersion : string) : bool :=
  match tags with
  | [] => false
  | tag :: tags' => if String.eqb tag chartVersion then true else hasTag tags' chartVersion
  end.

(** [registry_NewClient] is what [registry.NewClient] returns for the
    settings of the process. *)
Definition FindOCIChart (registry_NewClient : res RegistryClient)
    (chartRepo chartName chartVersion : string) : res bool :=
  registryClient <- registry_NewClient ;;
  match WithResolver registryClient true false with
  | Some err => Fail err
  | None =>
      (* Retrieve list of tags for repository *)
      let ref := TrimPrefix chartRepo (OCIScheme +:+ "://") +:+ "/" +:+ chartName in
      tags <- Tags registryClient ref ;;
      Ok (hasTag tags chartVersion)
  end.

(** [chart.Chart] of Helm, reduced to the metadata read here. *)
Record Chart := mkHelmChart {
  Metadata_Name : string;
  Metadata_Type : string;
  Metadata_Version : string }.

(** [action.ChartPathOptions] of Helm, reduced to the options set here. *)
Record ChartPathOptions := mkChartPathOptions {
  RepoURL : string;
  Version : string;
  Username : string;
  Password : string;
  InsecureSkipTLSverify : bool }.

Definition CheckIfInstallable (chart : Chart) : option error :=
  if String.eqb (Metadata_Type chart) "" || String.eqb (Metadata_Type chart) "application"
  then None
  else Some (Errorf ("chart " +:+ Metadata_Name chart +:+ " is " +:+ Metadata_Type chart
                     +:+ ", which is not installable")).

(** [LocateChart] is [ChartPathOptions.LocateChart] on the settings of the
    process, [loader_Load] is [loader.Load]. *)
Definition LocateAuthHelmChart
    (LocateChart : ChartPathOptions -> string -> res string)
    (loader_Load : string -> res Chart)
    (chartRepo username password chartName chartVersion : string) : res Chart :=
  let options := mkChartPathOptions chartRepo chartVersion username password true in
  let '(options, chartName) :=
    if IsOCI chartRepo
    then (mkChartPathOptions "" chartVersion username password true,
          chartRepo +:+ "/" +:+ chartName)
    else (options, chartName) in
  cp <- LocateChart options chartName ;;
  (* Check chart dependencies to make sure all are present in /charts *)
  chartRequested <- loader_Load cp ;;
  match CheckIfInstallable chartRequested with
  | Some err => Fail err
  | None => Ok chartRequested
  end.

(** [corev1.Secret], reduced to its data. *)
Record Secret := mkSecret { secret_Data : gmap string bytes }.

Definition UsernameKey : string := "username".
Definition PasswordKey : string := "password".

(** [getSecret] is [kubeclient.CoreV1().Secrets(namespace).Get]. *)
Definition GetHelmRepoCredentials (getSecret : string -> string -> res Secret)
    (secretName namespace : string) : res (string * string) :=
  secret <- getSecret namespace secretName ;;
  match secret_Data secret !! UsernameKey with
  | None =>
      Fail (Errorf ("secret " +:+ namespace +:+ "/" +:+ secretName
                    +:+ " does not contain username"))
  | Some username =>
      match secret_Data secret !! PasswordKey with
      | None =>
          Fail (Errorf ("secret " +:+ namespace +:+ "/" +:+ secretName
                        +:+ " does not contain password"))
      | Some password =>
          Ok (String.string_of_list_byte username, String.string_of_list_byte password)
      end
  end.

End utils.

(** ** A small installation, for concrete runs *)

Definition matchesSet (selector labels : gmap string string) : bool :=
  bool_decide (selector ⊆ labels).

(** An informer cache holding [index], listed by label selector. *)
Definition cacheList {A} (meta : A -> ObjectMeta) (index : list A)
    (selector : gmap string string) : res (list A) :=
  Ok (List.filter (fun o => matchesSet selector (Labels (meta o))) index).

Definition cacheGet (index : list HelmChart) (namespace name : string) : res HelmChart :=
  match List.find (fun c => String.eqb (Namespace (chart_meta c)) namespace
                            && String.eqb (Name (chart_meta c)) name) index with
  | Some c => Ok c
  | None => Fail (NewNotFound "helmcharts" name)
  end.

Definition demoPackages : Packages := {|
  SchemeGroupVersion_Version := "v1alpha1";
  ApplyNow := "ApplyNow";
  ApplyLater := "ApplyLater";
  DescriptionHelmDeployer := "Helm";
  DescriptionGenericDeployer := "Generic";
  AppFinalizer := "apps.clusternet.io/finalizer";
  ListManifestsBySelector := fun ns lister feed =>
    lister ns {[ "kind" := Feed.Kind feed; "name" := Feed.Name feed ]};
  applyOverrides := fun base overrides =>
    fold_left (fun acc o =>
                 doc <- acc ;;
                 if String.eqb (OverrideConfig.Value o) ""
                 then Fail (ExternalError ("malformed " +:+ OverrideConfig.Name o))
                 else Ok (doc ++ String.list_byte_of_string (OverrideConfig.Value o)))
              overrides (Ok base);
  json_Unmarshal := fun raw =>
    match raw with
    | [] => Fail (ExternalError "unexpected end of JSON input")
    | _ :: _ => Ok (mkUnstructured "Deployment" "apps/v1" "default" (String.string_of_list_byte raw))
    end |}.

Definition demoTime (sec : Z) : Time := mkTime sec 0.

Definition demoMeta (name uid : string) (labels : gmap string string)
    (deleted : option Time) (created : Z) : ObjectMeta :=
  mkMeta name "default" uid labels ["apps.clusternet.io/finalizer"; "other"]
         deleted (demoTime created).

(** An override whose payload is its own name. *)
Definition demoOverride (name : string) : OverrideConfig.t :=
  OverrideConfig.mk name name "MergePatch".

(** An override that the demo patch engine rejects. *)
Definition demoMalformed (name : string) : OverrideConfig.t :=
  OverrideConfig.mk name "" "JSONPatch".

Definition demoChart (name : string) : HelmChart :=
  mkChart (demoMeta name ("uid-" +:+ name) ∅ None 0).

Definition demoManifest (name : string) : Manifest :=
  mkManifest (demoMeta name ("uid-" +:+ name)
                {[ "kind" := "Deployment"; "name" := name ]} None 0).

Definition demoChartFeed (name : string) : Feed.t :=
  Feed.mk "HelmChart" "v1alpha1" "default" name.

Definition demoDeploymentFeed (name : string) : Feed.t :=
  Feed.mk "Deployment" "apps/v1" "default" name.

(** A Globalization and a Localization of chart [target]. *)
Definition demoGlob (name target : string) (priority created : Z)
    (deleted : option Time) (overrides : list OverrideConfig.t) : Globalization :=
  mkGlob (demoMeta name name {[ "uid-" +:+ target := "HelmChart" ]} deleted created)
         (mkGlobSpec "ApplyLater" overrides priority (demoChartFeed target)).

Definition demoLoc (name target policy : string) (priority created : Z)
    (deleted : option Time) : Localization :=
  mkLoc (demoMeta name name {[ "uid-" +:+ target := "HelmChart" ]} deleted created)
        (mkLocSpec policy [demoOverride name; demoOverride (name +:+ "'")]
                   priority (demoChartFeed target)).

Definition demoLocalizer (globs : list Globalization) (locs : list Localization)
    (charts : list HelmChart) (manifests : list Manifest) (update : option error)
  : Localizer :=
  mkLocalizer (fun _ _ => update) (fun _ => update)
    (fun _ => cacheList loc_meta locs)
    (cacheList glob_meta globs)
    (cacheGet charts)
    (fun _ => cacheList manifest_meta manifests)
    (fun _ => None) (fun _ => None)
    "clusternet-reserved".

(** Two Globalizations of equal priority created one second apart, across
    the turn of a minute: [early] at 00:00:59, [late] at 00:01:00. *)
Definition demoEarly : Globalization :=
  demoGlob "early" "nginx" 500 59 None [demoOverride "early"].

Definition demoLate : Globalization :=
  demoGlob "late" "nginx" 500 60 None [demoOverride "late"].

Definition demoTieHub : Localizer :=
  demoLocalizer [demoEarly; demoLate] [] [demoChart "nginx"] [] None.

(** A hub with three charts; the Globalization of [redis] is malformed, one
    Globalization of [nginx] is pending deletion. *)
Definition demoGlobs : list Globalization :=
  [ demoGlob "g600" "nginx" 600 10 None [demoOverride "g600"];
    demoGlob "gone" "nginx" 100 11 (Some (demoTime 99)) [demoOverride "gone"];
    demoGlob "g300" "nginx" 300 12 None [demoOverride "g300"];
    demoGlob "bad" "redis" 500 13 None [demoMalformed "bad"] ].

Definition demoLocs : list Localization :=
  [ demoLoc "l600" "nginx" "ApplyLater" 600 20 None;
    demoLoc "l300" "nginx" "ApplyNow" 300 21 None ].

Definition demoHub : Localizer :=
  demoLocalizer demoGlobs demoLocs
    [demoChart "nginx"; demoChart "redis"; demoChart "mysql"]
    [demoManifest "web"] None.

Definition demoDescription (deployer : string) : Description :=
  mkDesc (demoMeta "desc" "uid-desc" ∅ None 0)
         (mkDescSpec deployer
            [mkChartRef "default" "nginx"; mkChartRef "default" "redis";
             mkChartRef "default" "mysql"]
            [[x7b; x7d]; []; [x5b; x5d]]).

(** Declarations pending deletion. *)
Definition demoDeletedLater : Localization :=
  demoLoc "later" "nginx" "ApplyLater" 500 30 (Some (demoTime 40)).

Definition demoDeletedInvalid : Localization :=
  demoLoc "invalid" "nginx" "ApplyEventually" 500 30 (Some (demoTime 40)).

Definition demoDeletedOrphan : Localization :=
  demoLoc "orphan" "absent" "ApplyNow" 500 30 (Some (demoTime 40)).

(** A hub whose API server refuses every update. *)
Definition demoConflictHub : Localizer :=
  demoLocalizer [] [] [demoChart "nginx"] []
    (Some (ExternalError "the object has been modified")).

(** The demo hub with its caches listed backwards. *)
Definition demoHubBackwards : Localizer :=
  demoLocalizer (reverse demoGlobs) (reverse demoLocs)
    [demoChart "nginx"; demoChart "redis"; demoChart "mysql"]
    [demoManifest "web"] None.

(** A hub whose caches cannot be read. *)
Definition demoBrokenHub : Localizer :=
  mkLocalizer (fun _ _ => None) (fun _ => None)
    (fun _ _ => Fail (ExternalError "cache is not synced"))
    (fun _ => Fail (ExternalError "cache is not synced"))
    (fun _ _ => Fail (ExternalError "cache is not synced"))
    (fun _ _ => Fail (ExternalError "cache is not synced"))
    (fun _ => None) (fun _ => None)
    "clusternet-reserved".

(** A Localization of chart [nginx] to apply at once. *)
Definition demoApplyNow : Localization :=
  demoLoc "now" "nginx" "ApplyNow" 500 30 (Some (demoTime 40)).

(** A subscription to bind, as in the test of the binder. *)
Definition demoSubscriptionPackages : SubscriptionPackages := {|
  SubscriptionSpec := string;
  HashSubscriptionSpec := fun spec => Z.of_nat (String.length spec) |}.

Definition demoSubscription : @defaultbinder.Subscription demoSubscriptionPackages :=
  defaultbinder.mkSubscription
    (mkMeta "foo" "ns" "uid-foo" ∅ [] None (demoTime 0))
    ("subscribers" : @SubscriptionSpec demoSubscriptionPackages)
    (mkSubStatus [] 0 0 0).

Definition demoBinder : @defaultbinder.DefaultBinder demoSubscriptionPackages :=
  defaultbinder.New (defaultbinder.mkHandle (fun _ _ => None)).

Definition demoClusters : list string := ["cluster-ns-03/xyz"; "cluster-ns-01/def"].

Definition demoKnownNames : KnownNames := {|
  NamePrefixForClusternetObjects := "clusternet-";
  ClusterRegisteredByLabel := "clusters.clusternet.io/registered-by";
  ClusternetAgentName := "clusternet-agent";
  ClusterIDLabel := "clusters.clusternet.io/cluster-id";
  ClusterNameLabel := "clusters.clusternet.io/cluster-name" |}.

Definition demoLabels : list (string * string) :=
  [("env", "prod"); ("zone", "eu-1"); ("env", "test")].

(** A registry that holds two versions of one chart. *)
Definition demoRegistry : utils.RegistryClient :=
  utils.mkRegistryClient (fun _ _ => None)
    (fun ref => if String.eqb ref "registry.example.com/charts/nginx"
                then Ok ["1.0.0"; "1.1.0"]
                else Fail (ExternalError "repository not found")).

Definition demoLocateChart (options : utils.ChartPathOptions) (name : string)
  : res string :=
  Ok ("/cache/" +:+ name +:+ "-" +:+ utils.Version options +:+ ".tgz").

Definition demoLoad (path : string) : res utils.Chart :=
  Ok (utils.mkHelmChart path "application" "1.0.0").

(** ** Notions for the order among declarations *)

(** The declarations of [globs] differ pairwise in priority or in the second
    of the minute of their creation: the comparison never ties. *)
Definition noTieGlobs (globs : list Globalization) : Prop :=
  forall a b, a ∈ globs -> b ∈ globs ->
    glob_Priority (glob_Spec a) = glob_Priority (glob_Spec b) ->
    Second (CreationTimestamp (glob_meta a)) = Second (CreationTimestamp (glob_meta b)) ->
    a = b.

Definition noTieLocs (locs : list Localization) : Prop :=
  forall a b, a ∈ locs -> b ∈ locs ->
    loc_Priority (loc_Spec a) = loc_Priority (loc_Spec b) ->
    Second (CreationTimestamp (loc_meta a)) = Second (CreationTimestamp (loc_meta b)) ->
    a = b.

(** The declarations that tie with priority [p] and second [s]. *)
Definition tiesGlob (p s : Z) (glob : Globalization) : bool :=
  (glob_Priority (glob_Spec glob) =? p)
  && (Second (CreationTimestamp (glob_meta glob)) =? s).

Definition tiesLoc (p s : Z) (loc : Localization) : bool :=
  (loc_Priority (loc_Spec loc) =? p)
  && (Second (CreationTimestamp (loc_meta loc)) =? s).

(** [a] is in front of [b] by priority, then by second of the minute. *)
Definition keyLeGlob (a b : Globalization) : Prop :=
  glob_Priority (glob_Spec a) < glob_Priority (glob_Spec b)
  \/ (glob_Priority (glob_Spec a) = glob_Priority (glob_Spec b)
      /\ Second (CreationTimestamp (glob_meta a))
         <= Second (CreationTimestamp (glob_meta b))).

Definition keyLeLoc (a b : Localization) : Prop :=
  loc_Priority (loc_Spec a) < loc_Priority (loc_Spec b)
  \/ (loc_Priority (loc_Spec a) = loc_Priority (loc_Spec b)
      /\ Second (CreationTimestamp (loc_meta a))
         <= Second (CreationTimestamp (loc_meta b))).

(** * Properties *)

(** ** Stable sorting *)

Section StableSort.

Context {A : Type} (less : A -> A -> bool).

Hypothesis less_asym : forall a b, less a b = true -> less b a = false.
Hypothesis mayPrecede_trans :
  forall a b c, mayPrecede less a b -> mayPrecede less b c -> mayPrecede less a c.

Lemma insertStable_perm (x : A) (l : list A) : insertStable less x l ≡ₚ x :: l.
Proof.
  induction l as [|y l IH]; simpl; [done|].
  destruct (less y x); [|done].
  rewrite IH. apply Permutation_swap.
Qed.

Lemma SliceStable_perm (l : list A) : SliceStable less l ≡ₚ l.
Proof.
  induction l as [|x l IH]; simpl; [done|].
  rewrite insertStable_perm. by rewrite IH.
Qed.

Lemma insertStable_head (x : A) (l : list A) :
  Forall (mayPrecede less x) l -> insertStable less x l = x :: l.
Proof.
  destruct l as [|y l]; simpl; [done|].
  intros Hall. apply Forall_cons in Hall as [Hy _].
  unfold mayPrecede in Hy. by rewrite Hy.
Qed.

Lemma insertStable_sorted (x : A) (l : list A) :
  StronglySorted (mayPrecede less) l -> StronglySorted (mayPrecede less) (insertStable less x l).
Proof.
  induction 1 as [|y l Hl IH Hy]; simpl.
  - repeat constructor.
  - destruct (less y x) eqn:Hyx.
    + constructor; [done|].
      rewrite insertStable_perm. constructor; [|done].
      by apply less_asym.
    + constructor; [by constructor|].
      constructor; [done|].
      eapply Forall_impl; [exact Hy|].
      intros z Hz. by apply mayPrecede_trans with y.
Qed.

Lemma SliceStable_sorted (l : list A) : StronglySorted (mayPrecede less) (SliceStable less l).
Proof.
  induction l as [|x l IH]; simpl; [constructor|].
  by apply insertStable_sorted.
Qed.

Lemma insertStable_filter (p : A -> bool) (x : A) (l : list A) :
  StronglySorted (mayPrecede less) l ->
  List.filter p (insertStable less x l)
  = if p x then insertStable less x (List.filter p l) else List.filter p l.
Proof.
  induction 1 as [|y l Hl IH Hy]; simpl.
  - by destruct (p x).
  - destruct (less y x) eqn:Hyx; simpl.
    + rewrite IH. destruct (p y), (p x); simpl; by rewrite ?Hyx.
    + destruct (p x) eqn:Hpx; [|done].
      symmetry. apply insertStable_head.
      assert (Hall : Forall (mayPrecede less x) (y :: l)).
      { constructor; [done|].
        eapply Forall_impl; [exact Hy|].
        intros z Hz. by apply mayPrecede_trans with y. }
      apply Forall_forall. intros z Hz.
      apply list_elem_of_In in Hz.
      change (In z (List.filter p (y :: l))) in Hz.
      apply filter_In in Hz as [Hz _].
      apply list_elem_of_In in Hz.
      rewrite Forall_forall in Hall. by apply Hall.
Qed.

(** Sorting and taking a sub-slice by a predicate commute: a stable sort
    never changes the relative order that the kept elements already have. *)
Lemma SliceStable_filter (p : A -> bool) (l : list A) :
  List.filter p (SliceStable less l) = SliceStable less (List.filter p l).
Proof.
  induction l as [|x l IH]; simpl; [done|].
  rewrite insertStable_filter by apply SliceStable_sorted.
  rewrite IH. by destruct (p x).
Qed.

End StableSort.

(** ** The order computed by [getOverrides] *)

Lemma lessGlob_asym (a b : Globalization) : lessGlob a b = true -> lessGlob b a = false.
Proof. unfold lessGlob. repeat case_match; lia. Qed.

Lemma lessGlob_mayPrecede_trans (a b c : Globalization) :
  mayPrecede lessGlob a b -> mayPrecede lessGlob b c -> mayPrecede lessGlob a c.
Proof. unfold mayPrecede, lessGlob. repeat case_match; lia. Qed.

Lemma lessGlob_priority (a b : Globalization) :
  mayPrecede lessGlob a b -> priorityLeGlob a b.
Proof. unfold mayPrecede, lessGlob, priorityLeGlob. case_match; lia. Qed.

Lemma lessLoc_asym (a b : Localization) : lessLoc a b = true -> lessLoc b a = false.
Proof. unfold lessLoc. repeat case_match; lia. Qed.

Lemma lessLoc_mayPrecede_trans (a b c : Localization) :
  mayPrecede lessLoc a b -> mayPrecede lessLoc b c -> mayPrecede lessLoc a c.
Proof. unfold mayPrecede, lessLoc. repeat case_match; lia. Qed.

Lemma lessLoc_priority (a b : Localization) :
  mayPrecede lessLoc a b -> priorityLeLoc a b.
Proof. unfold mayPrecede, lessLoc, priorityLeLoc. case_match; lia. Qed.

Lemma StronglySorted_impl {A} (R S : A -> A -> Prop) (l : list A) :
  (forall a b, R a b -> S a b) -> StronglySorted R l -> StronglySorted S l.
Proof.
  intros HRS. induction 1 as [|x l Hl IH Hx]; constructor; [done|].
  eapply Forall_impl; [exact Hx|]. intros y. apply HRS.
Qed.

Lemma sortedGlobs_by_priority (globs : list Globalization) :
  StronglySorted priorityLeGlob (SliceStable lessGlob globs).
Proof.
  apply StronglySorted_impl with (R := mayPrecede lessGlob);
    [apply lessGlob_priority|].
  apply SliceStable_sorted; [apply lessGlob_asym|apply lessGlob_mayPrecede_trans].
Qed.

Lemma sortedLocs_by_priority (locs : list Localization) :
  StronglySorted priorityLeLoc (SliceStable lessLoc locs).
Proof.
  apply StronglySorted_impl with (R := mayPrecede lessLoc);
    [apply lessLoc_priority|].
  apply SliceStable_sorted; [apply lessLoc_asym|apply lessLoc_mayPrecede_trans].
Qed.

(** The loops append the overrides of the active declarations, in order. *)
Lemma appendGlobs_flat (all : list OverrideConfig.t) (globs : list Globalization) :
  appendGlobs all globs = all ++ overridesOfGlobs (List.filter activeGlob globs).
Proof.
  unfold appendGlobs, overridesOfGlobs, activeGlob.
  revert all. induction globs as [|g globs IH]; intros all; simpl.
  - by rewrite !app_nil_r.
  - rewrite IH. destruct (DeletionTimestamp (glob_meta g)); simpl; [done|].
    by rewrite <- app_assoc.
Qed.

Lemma appendLocs_flat (all : list OverrideConfig.t) (locs : list Localization) :
  appendLocs all locs = all ++ overridesOfLocs (List.filter activeLoc locs).
Proof.
  unfold appendLocs, overridesOfLocs, activeLoc.
  revert all. induction locs as [|x locs IH]; intros all; simpl.
  - by rewrite !app_nil_r.
  - rewrite IH. destruct (DeletionTimestamp (loc_meta x)); simpl; [done|].
    by rewrite <- app_assoc.
Qed.

Lemma filter_idem {A} (p : A -> bool) (l : list A) :
  List.filter p (List.filter p l) = List.filter p l.
Proof.
  induction l as [|x l IH]; simpl; [done|].
  destruct (p x) eqn:Hp; simpl; by rewrite ?Hp, IH.
Qed.

Section GetOverrides.

Context `{Packages}.

(** What [getOverrides] returns once the target is resolved and both
    listers have answered. *)
Lemma getOverrides_resolved (l : Localizer) (namespace : string) (feed : Feed.t)
    (uid : string) (G : list Globalization) (L : list Localization) :
  targetUID l feed = Ok uid ->
  globLister l {[ uid := Feed.Kind feed ]} = Ok G ->
  locLister l namespace {[ uid := Feed.Kind feed ]} = Ok L ->
  getOverrides l namespace feed
  = Ok (overridesOfGlobs (SliceStable lessGlob (List.filter activeGlob G))
        ++ overridesOfLocs (SliceStable lessLoc (List.filter activeLoc L))).
Proof.
  intros Huid HG HL. unfold getOverrides.
  rewrite Huid. simpl. rewrite HG. simpl. rewrite HL. simpl.
  rewrite appendLocs_flat, appendGlobs_flat. simpl.
  rewrite SliceStable_filter
    by (try apply lessGlob_asym; apply lessGlob_mayPrecede_trans).
  rewrite SliceStable_filter
    by (try apply lessLoc_asym; apply lessLoc_mayPrecede_trans).
  done.
Qed.

(** C1: for a resolved target, [getOverrides] returns the overrides of the
    matching Globalizations that are not pending deletion, sorted ascending
    by priority, followed by the overrides of the matching Localizations of
    the namespace that are not pending deletion, sorted ascending by
    priority; the overrides of one declaration stay together and in their
    own order. *)
Theorem getOverrides_globs_then_locs (l : Localizer) (namespace : string)
    (feed : Feed.t) (uid : string) (G : list Globalization) (L : list Localization) :
  targetUID l feed = Ok uid ->
  globLister l {[ uid := Feed.Kind feed ]} = Ok G ->
  locLister l namespace {[ uid := Feed.Kind feed ]} = Ok L ->
  getOverrides l namespace feed
  = Ok (overridesOfGlobs (SliceStable lessGlob (List.filter activeGlob G))
        ++ overridesOfLocs (SliceStable lessLoc (List.filter activeLoc L)))
  /\ SliceStable lessGlob (List.filter activeGlob G) ≡ₚ List.filter activeGlob G
  /\ StronglySorted priorityLeGlob (SliceStable lessGlob (List.filter activeGlob G))
  /\ SliceStable lessLoc (List.filter activeLoc L) ≡ₚ List.filter activeLoc L
  /\ StronglySorted priorityLeLoc (SliceStable lessLoc (List.filter activeLoc L)).
Proof.
  intros Huid HG HL. split; [by apply getOverrides_resolved with uid|].
  split; [apply SliceStable_perm|].
  split; [apply sortedGlobs_by_priority|].
  split; [apply SliceStable_perm|apply sortedLocs_by_priority].
Qed.

(** C4: the declarations pending deletion that the listers still return add
    nothing to the result: [getOverrides] returns what it returns over
    caches that do not hold them. *)
Theorem getOverrides_ignores_pending_deletion (l : Localizer) (namespace : string)
    (feed : Feed.t) :
  getOverrides (dropPending l) namespace feed = getOverrides l namespace feed.
Proof.
  unfold getOverrides.
  change (targetUID (dropPending l) feed) with (targetUID l feed).
  destruct (targetUID l feed) as [uid|e]; simpl; [|done].
  destruct (globLister l {[ uid := Feed.Kind feed ]}) as [G|e]; simpl; [|done].
  destruct (locLister l namespace {[ uid := Feed.Kind feed ]}) as [L|e]; simpl; [|done].
  rewrite !appendLocs_flat, !appendGlobs_flat. simpl.
  rewrite <- !(SliceStable_filter lessGlob lessGlob_asym lessGlob_mayPrecede_trans).
  rewrite <- !(SliceStable_filter lessLoc lessLoc_asym lessLoc_mayPrecede_trans).
  by rewrite !filter_idem.
Qed.

(** C6: for a Feed of another kind than the chart kind, no matching manifest
    in the reserved namespace makes [getOverrides] return a NotFound error
    with the kind and the name of the Feed; otherwise the declarations are
    listed under the UID of the first manifest. *)
Theorem getOverrides_manifest_target (l : Localizer) (namespace : string)
    (feed : Feed.t) :
  Feed.Kind feed <> gvk_Kind chartKind ->
  (ListManifestsBySelector (reservedNamespace l) (manifestLister l) feed = Ok [] ->
   getOverrides l namespace feed
   = Fail (NewNotFound (Feed.Kind feed) (Feed.Name feed)))
  /\ (forall first others,
        ListManifestsBySelector (reservedNamespace l) (manifestLister l) feed
        = Ok (first :: others) ->
        targetUID l feed = Ok (UID (manifest_meta first))
        /\ getOverrides l namespace feed
           = (globs <- globLister l {[ UID (manifest_meta first) := Feed.Kind feed ]} ;;
              locs <- locLister l namespace
                        {[ UID (manifest_meta first) := Feed.Kind feed ]} ;;
              Ok (overridesOfGlobs (List.filter activeGlob (SliceStable lessGlob globs))
                  ++ overridesOfLocs (List.filter activeLoc (SliceStable lessLoc locs))))).
Proof.
  intros Hkind. apply String.eqb_neq in Hkind.
  unfold getOverrides, targetUID. rewrite Hkind. split.
  - intros ->. done.
  - intros first others ->. simpl. split; [done|].
    destruct (globLister l {[ UID (manifest_meta first) := Feed.Kind feed ]})
      as [G|e]; simpl; [|done].
    destruct (locLister l namespace {[ UID (manifest_meta first) := Feed.Kind feed ]})
      as [L|e]; simpl; [|done].
    by rewrite appendLocs_flat, appendGlobs_flat.
Qed.

(** C8: a target that resolves and that no Globalization and no Localization
    matches gives the empty sequence and no error. *)
Theorem getOverrides_no_declaration (l : Localizer) (namespace : string)
    (feed : Feed.t) (uid : string) :
  targetUID l feed = Ok uid ->
  globLister l {[ uid := Feed.Kind feed ]} = Ok [] ->
  locLister l namespace {[ uid := Feed.Kind feed ]} = Ok [] ->
  getOverrides l namespace feed = Ok [].
Proof.
  intros Huid HG HL.
  by rewrite (getOverrides_resolved l namespace feed uid [] []).
Qed.

End GetOverrides.

(** ** [ApplyOverridesToDescription]: one outcome per entry *)

Section Description.

Context `{Packages}.

(** The loop of the Helm mode, started at slot [idx] with the slots [pre]
    behind it and the slots [cur] ahead. *)
Lemma helmLoop_spec (l : Localizer) (namespace : string) (charts : list ChartReference) :
  forall (idx : nat) (pre cur : list bytes) (allErrs : list error),
    length pre = idx -> length cur = length charts ->
    helmLoop l namespace idx charts (pre ++ cur) allErrs
    = (pre ++ zip_with patched cur (map (helmEntry l namespace) charts),
       allErrs ++ failures (map (helmEntry l namespace) charts)).
Proof.
  induction charts as [|chartRef charts IH]; intros idx pre cur allErrs Hpre Hcur;
    destruct cur as [|slot cur]; simplify_eq/=.
  - by rewrite !app_nil_r.
  - unfold helmEntry at 1 3.
    destruct (getOverrides l namespace (chartFeed chartRef)) as [overrides|err]; simpl.
    + destruct (applyOverrides [x20] overrides) as [result|err]; simpl.
      * rewrite insert_app_r_alt, Nat.sub_diag by done. simpl.
        rewrite (cons_middle result pre cur), app_assoc.
        rewrite IH by (rewrite ?length_app; simpl; lia).
        by rewrite <- app_assoc.
      * rewrite (cons_middle slot pre cur), app_assoc.
        rewrite IH by (rewrite ?length_app; simpl; lia).
        by rewrite <- !app_assoc.
    + rewrite (cons_middle slot pre cur), app_assoc.
      rewrite IH by (rewrite ?length_app; simpl; lia).
      by rewrite <- !app_assoc.
Qed.

(** The loop of the generic mode: [rawObjects] ranges over the copy, [cur]
    are the slots of the description itself. *)
Lemma genericLoop_spec (l : Localizer) (namespace : string) (rawObjects : list bytes) :
  forall (idx : nat) (pre cur : list bytes) (allErrs : list error),
    length pre = idx -> length cur = length rawObjects ->
    genericLoop l namespace idx rawObjects (pre ++ cur) allErrs
    = (pre ++ zip_with patched cur (map (genericEntry l namespace) rawObjects),
       allErrs ++ failures (map (genericEntry l namespace) rawObjects)).
Proof.
  induction rawObjects as [|rawObject rawObjects IH];
    intros idx pre cur allErrs Hpre Hcur;
    destruct cur as [|slot cur]; simplify_eq/=.
  - by rewrite !app_nil_r.
  - unfold genericEntry at 1 3.
    destruct (json_Unmarshal rawObject) as [obj|err]; simpl.
    + destruct (getOverrides l namespace (objectFeed obj)) as [overrides|err]; simpl.
      * destruct (applyOverrides rawObject overrides) as [result|err]; simpl.
        -- rewrite insert_app_r_alt, Nat.sub_diag by done. simpl.
           rewrite (cons_middle result pre cur), app_assoc.
           rewrite IH by (rewrite ?length_app; simpl; lia).
           by rewrite <- app_assoc.
        -- rewrite (cons_middle slot pre cur), app_assoc.
           rewrite IH by (rewrite ?length_app; simpl; lia).
           by rewrite <- !app_assoc.
      * rewrite (cons_middle slot pre cur), app_assoc.
        rewrite IH by (rewrite ?length_app; simpl; lia).
        by rewrite <- !app_assoc.
    + rewrite (cons_middle slot pre cur), app_assoc.
      rewrite IH by (rewrite ?length_app; simpl; lia).
      by rewrite <- !app_assoc.
Qed.

Lemma helmLoop_whole (l : Localizer) (namespace : string)
    (charts : list ChartReference) (slots : list bytes) :
  length slots = length charts ->
  helmLoop l namespace 0 charts slots []
  = (zip_with patched slots (map (helmEntry l namespace) charts),
     failures (map (helmEntry l namespace) charts)).
Proof. intros Hlen. by apply (helmLoop_spec l namespace charts 0%nat [] slots []). Qed.

Lemma genericLoop_whole (l : Localizer) (namespace : string) (rawObjects : list bytes) :
  genericLoop l namespace 0 rawObjects rawObjects []
  = (zip_with patched rawObjects (map (genericEntry l namespace) rawObjects),
     failures (map (genericEntry l namespace) rawObjects)).
Proof. by apply (genericLoop_spec l namespace rawObjects 0%nat [] rawObjects []). Qed.

(** In a supported mode the call leaves, in every slot, what that entry's
    own outcome makes of it, and returns the aggregate of the failures. *)
Lemma ApplyOverridesToDescription_supported (l : Localizer) (desc : Description) :
  supportedDeployer desc ->
  ApplyOverridesToDescription l desc
  = (setRaw desc (zip_with patched (initialSlots desc) (entryOutcomes l desc)),
     NewAggregate (failures (entryOutcomes l desc))).
Proof.
  intros Hmode.
  unfold ApplyOverridesToDescription, initialSlots, entryOutcomes.
  destruct (String.eqb (Deployer (desc_Spec desc)) DescriptionHelmDeployer) eqn:Hhelm.
  - by rewrite helmLoop_whole by apply length_replicate.
  - destruct Hmode as [Hmode|Hmode].
    { apply String.eqb_neq in Hhelm. done. }
    apply String.eqb_eq in Hmode. rewrite Hmode.
    by rewrite genericLoop_whole.
Qed.

Lemma length_entryOutcomes (l : Localizer) (desc : Description) :
  length (entryOutcomes l desc) = length (initialSlots desc).
Proof.
  unfold entryOutcomes, initialSlots.
  destruct (String.eqb _ _); by rewrite length_map, ?length_replicate.
Qed.

Lemma NewAggregate_None (errlist : list error) :
  NewAggregate errlist = None <-> errlist = [].
Proof. by destruct errlist. Qed.

(** C5: in a supported deployer mode every entry is processed whatever
    happens to the others: the entries that succeed hold their patched
    result, and the returned error is the aggregate of exactly the errors of
    the entries that failed, [nil] when there is none. *)
Theorem ApplyOverridesToDescription_isolates_failures (l : Localizer)
    (desc : Description) :
  supportedDeployer desc ->
  snd (ApplyOverridesToDescription l desc)
  = NewAggregate (failures (entryOutcomes l desc))
  /\ (snd (ApplyOverridesToDescription l desc) = None
      <-> failures (entryOutcomes l desc) = [])
  /\ length (Raw (desc_Spec (fst (ApplyOverridesToDescription l desc))))
     = length (entryOutcomes l desc)
  /\ (forall (i : nat) (result : bytes),
        entryOutcomes l desc !! i = Some (Ok result) ->
        Raw (desc_Spec (fst (ApplyOverridesToDescription l desc))) !! i = Some result).
Proof.
  intros Hmode. rewrite ApplyOverridesToDescription_supported by done. simpl.
  split; [done|]. split; [apply NewAggregate_None|].
  pose proof (length_entryOutcomes l desc) as Hlen.
  split.
  - rewrite length_zip_with. lia.
  - intros i result Hi. rewrite lookup_zip_with, Hi.
    destruct (initialSlots desc !! i) as [slot|] eqn:Hslot; [done|].
    apply lookup_ge_None in Hslot. apply lookup_lt_Some in Hi. lia.
Qed.

(** C9: with a deployer that is neither the Helm nor the generic one the
    call returns an error at once and the description is as it was. *)
Theorem ApplyOverridesToDescription_unsupported_deployer (l : Localizer)
    (desc : Description) :
  Deployer (desc_Spec desc) <> DescriptionHelmDeployer ->
  Deployer (desc_Spec desc) <> DescriptionGenericDeployer ->
  ApplyOverridesToDescription l desc
  = (desc, Some (Errorf ("unsupported deployer " +:+ Deployer (desc_Spec desc)))).
Proof.
  intros Hhelm Hgeneric. unfold ApplyOverridesToDescription.
  apply String.eqb_neq in Hhelm, Hgeneric. by rewrite Hhelm, Hgeneric.
Qed.

(** C10: an entry whose override computation fails holds, after the call,
    the empty payload in the Helm mode and its original bytes in the generic
    mode. *)
Theorem ApplyOverridesToDescription_failed_entry (l : Localizer)
    (desc : Description) (i : nat) (err : error) :
  supportedDeployer desc ->
  entryOutcomes l desc !! i = Some (Fail err) ->
  Raw (desc_Spec (fst (ApplyOverridesToDescription l desc))) !! i
  = if String.eqb (Deployer (desc_Spec desc)) DescriptionHelmDeployer
    then Some []
    else Raw (desc_Spec desc) !! i.
Proof.
  intros Hmode Hi. rewrite ApplyOverridesToDescription_supported by done. simpl.
  rewrite lookup_zip_with, Hi.
  pose proof (length_entryOutcomes l desc) as Hlen.
  pose proof (lookup_lt_Some _ _ _ Hi) as Hlt.
  unfold initialSlots in *.
  destruct (String.eqb (Deployer (desc_Spec desc)) DescriptionHelmDeployer).
  - rewrite lookup_replicate_2; [done|]. rewrite length_replicate in Hlen. lia.
  - destruct (Raw (desc_Spec desc) !! i) as [slot|] eqn:Hslot; [done|].
    apply lookup_ge_None in Hslot. lia.
Qed.

End Description.

(** ** The reconcile handlers *)

Lemma RemoveString_spec (slice : list string) (s item : string) :
  item ∈ RemoveString slice s <-> item ∈ slice /\ item <> s.
Proof.
  unfold RemoveString. rewrite !list_elem_of_In, filter_In.
  rewrite negb_true_iff, String.eqb_neq. done.
Qed.

Section Handlers.

Context `{Packages}.

(** Rewrites the tests of the [switch] with what is known of the policy and
    of the kind of the feed. *)
Ltac decide_switch :=
  repeat match goal with
    | Heq : ?a = ?b |- context [String.eqb ?a ?b] =>
        rewrite (proj2 (String.eqb_eq a b) Heq)
    | Hne : ?a <> ?b |- context [String.eqb ?a ?b] =>
        rewrite (proj2 (String.eqb_neq a b) Hne)
    end.

Lemma policyLocalization_target_missing (l : Localizer) (loc : Localization) :
  loc_OverridePolicy (loc_Spec loc) = ApplyNow ->
  targetMissing l (loc_Feed (loc_Spec loc)) ->
  policyLocalization l loc = ([], Break).
Proof.
  intros Hpolicy [[Hkind (err & Hget & Hnotfound)]|[Hkind Hlist]];
    unfold policyLocalization; decide_switch.
  - by rewrite Hget, Hnotfound.
  - by rewrite Hlist.
Qed.

Lemma policyGlobalization_target_missing (l : Localizer) (glob : Globalization) :
  glob_OverridePolicy (glob_Spec glob) = ApplyNow ->
  targetMissing l (glob_Feed (glob_Spec glob)) ->
  policyGlobalization l glob = ([], Break).
Proof.
  intros Hpolicy [[Hkind (err & Hget & Hnotfound)]|[Hkind Hlist]];
    unfold policyGlobalization; decide_switch.
  - by rewrite Hget, Hnotfound.
  - by rewrite Hlist.
Qed.

Lemma policyLocalization_passes (l : Localizer) (loc : Localization) :
  policyStepPasses l (ALocalization loc) ->
  exists done, policyLocalization l loc = (done, Break)
               /\ Forall (fun e => isUpdate e = false) done.
Proof.
  intros [[Hpolicy [Hmissing|Hfound]]|[Hnot Hlater]]; simpl in *.
  - exists []. by rewrite policyLocalization_target_missing.
  - destruct Hfound as [[Hkind (chart & Hget & Hcall)]
                       |[Hkind (first & others & Hlist & Hcall)]];
      unfold policyLocalization; decide_switch.
    + rewrite Hget, Hcall. eexists. split; [done|]. by repeat constructor.
    + rewrite Hlist, Hcall. eexists. split; [done|]. by repeat constructor.
  - exists []. unfold policyLocalization. by decide_switch.
Qed.

Lemma policyGlobalization_passes (l : Localizer) (glob : Globalization) :
  policyStepPasses l (AGlobalization glob) ->
  exists done, policyGlobalization l glob = (done, Break)
               /\ Forall (fun e => isUpdate e = false) done.
Proof.
  intros [[Hpolicy [Hmissing|Hfound]]|[Hnot Hlater]]; simpl in *.
  - exists []. by rewrite policyGlobalization_target_missing.
  - destruct Hfound as [[Hkind (chart & Hget & Hcall)]
                       |[Hkind (first & others & Hlist & Hcall)]];
      unfold policyGlobalization; decide_switch.
    + rewrite Hget, Hcall. eexists. split; [done|]. by repeat constructor.
    + rewrite Hlist, Hcall. eexists. split; [done|]. by repeat constructor.
  - exists []. unfold policyGlobalization. by decide_switch.
Qed.

(** C3, as the handlers have it: when a declaration pending deletion gets
    past the policy step (the policy is ApplyLater, or it is ApplyNow and
    the target is missing or its callback succeeds), the handler ends by
    sending the update of a copy from whose finalizers the engine's own is
    gone and the others are kept, and returns what that update returns. *)
Theorem handler_removes_finalizer (l : Localizer) (d : Declaration) :
  DeletionTimestamp (declMeta d) <> None ->
  policyStepPasses l d ->
  (exists done,
      handle l d = (done ++ [finalizerUpdate d], finalizerUpdateResult l d)
      /\ Forall (fun e => isUpdate e = false) done)
  /\ (AppFinalizer ∉ finalizersSent d)
  /\ (forall f, f <> AppFinalizer ->
                (f ∈ finalizersSent d) <-> (f ∈ Finalizers (declMeta d))).
Proof.
  intros Hdeleted Hpasses. split; [|split].
  - destruct d as [loc|glob]; simpl in *.
    + destruct (policyLocalization_passes l loc Hpasses) as (done & Hstep & Hdone).
      exists done. split; [|done].
      unfold handleLocalization. rewrite Hstep.
      by destruct (DeletionTimestamp (loc_meta loc)).
    + destruct (policyGlobalization_passes l glob Hpasses) as (done & Hstep & Hdone).
      exists done. split; [|done].
      unfold handleGlobalization. rewrite Hstep.
      by destruct (DeletionTimestamp (glob_meta glob)).
  - destruct d; simpl; by intros [_ Hne]%RemoveString_spec.
  - intros f Hf. destruct d; simpl; rewrite RemoveString_spec;
      (split; [by intros [Hin _]|by intros Hin]).
Qed.

(** C7, as the handlers have it: with the policy ApplyNow and a missing
    target, the handler calls no callback; it returns [nil] when the
    declaration is not pending deletion, and otherwise what the update that
    removes the finalizer returns. *)
Theorem handler_target_missing (l : Localizer) (d : Declaration) :
  declPolicy d = ApplyNow ->
  targetMissing l (declFeed d) ->
  Forall (fun e => isCallback e = false) (fst (handle l d))
  /\ snd (handle l d)
     = match DeletionTimestamp (declMeta d) with
       | None => None
       | Some _ => finalizerUpdateResult l d
       end.
Proof.
  intros Hpolicy Hmissing. destruct d as [loc|glob]; simpl in *.
  - unfold handleLocalization.
    rewrite policyLocalization_target_missing by done.
    destruct (DeletionTimestamp (loc_meta loc)); simpl; split; by repeat constructor.
  - unfold handleGlobalization.
    rewrite policyGlobalization_target_missing by done.
    destruct (DeletionTimestamp (glob_meta glob)); simpl; split; by repeat constructor.
Qed.

End Handlers.

(** ** Concrete runs *)

Example run_getOverrides :
  @getOverrides demoPackages demoHub "default" (demoChartFeed "nginx")
  = Ok [demoOverride "g300"; demoOverride "g600";
        demoOverride "l300"; demoOverride "l300'";
        demoOverride "l600"; demoOverride "l600'"].
Proof. vm_compute. reflexivity. Qed.

(** C2: [early] and [late] have the same priority and [early] is created
    first, one second before [late]; [getOverrides] places the overrides of
    [late] in front of those of [early], because the tie is decided by the
    second within the minute (59 against 0). *)
Theorem getOverrides_tie_by_second_of_minute :
  glob_Priority (glob_Spec demoEarly) = glob_Priority (glob_Spec demoLate)
  /\ Before (CreationTimestamp (glob_meta demoEarly))
            (CreationTimestamp (glob_meta demoLate)) = true
  /\ globLister demoTieHub {[ "uid-nginx" := "HelmChart" ]} = Ok [demoEarly; demoLate]
  /\ @getOverrides demoPackages demoTieHub "default" (demoChartFeed "nginx")
     = Ok [demoOverride "late"; demoOverride "early"].
Proof. repeat split; vm_compute; reflexivity. Qed.

(** The order computed for chart [nginx] on the demo hub. *)
Lemma getOverrides_globs_then_locs_witness :
  @getOverrides demoPackages demoHub "default" (demoChartFeed "nginx")
  = Ok (overridesOfGlobs (SliceStable lessGlob (List.filter activeGlob (take 3 demoGlobs)))
        ++ overridesOfLocs (SliceStable lessLoc (List.filter activeLoc demoLocs)))
  /\ SliceStable lessGlob (List.filter activeGlob (take 3 demoGlobs))
     ≡ₚ List.filter activeGlob (take 3 demoGlobs)
  /\ StronglySorted priorityLeGlob
       (SliceStable lessGlob (List.filter activeGlob (take 3 demoGlobs)))
  /\ SliceStable lessLoc (List.filter activeLoc demoLocs)
     ≡ₚ List.filter activeLoc demoLocs
  /\ StronglySorted priorityLeLoc (SliceStable lessLoc (List.filter activeLoc demoLocs)).
Proof.
  apply (@getOverrides_globs_then_locs demoPackages demoHub "default"
           (demoChartFeed "nginx") "uid-nginx" (take 3 demoGlobs) demoLocs);
    vm_compute; reflexivity.
Defined.

(** A Deployment without manifest, and one whose manifest is [web]. *)
Lemma getOverrides_manifest_target_witness :
  @getOverrides demoPackages demoHub "default" (demoDeploymentFeed "api")
  = Fail (NewNotFound "Deployment" "api")
  /\ @targetUID demoPackages demoHub (demoDeploymentFeed "web") = Ok "uid-web".
Proof.
  split.
  - apply (@getOverrides_manifest_target demoPackages demoHub "default"
             (demoDeploymentFeed "api")); [discriminate|vm_compute; reflexivity].
  - apply (proj2 (@getOverrides_manifest_target demoPackages demoHub "default"
                    (demoDeploymentFeed "web") ltac:(discriminate))
             (demoManifest "web") []).
    vm_compute; reflexivity.
Defined.

(** Chart [mysql] has no declaration on the demo hub. *)
Lemma getOverrides_no_declaration_witness :
  @getOverrides demoPackages demoHub "default" (demoChartFeed "mysql") = Ok [].
Proof.
  apply (@getOverrides_no_declaration demoPackages demoHub "default"
           (demoChartFeed "mysql") "uid-mysql");
    vm_compute; reflexivity.
Defined.

(** Three charts, the second with a malformed override: one error, and the
    third chart is patched all the same. *)
Lemma ApplyOverridesToDescription_isolates_failures_witness :
  snd (@ApplyOverridesToDescription demoPackages demoHub (demoDescription "Helm"))
  = Some (aggregate [ExternalError "malformed bad"])
  /\ Raw (desc_Spec (fst (@ApplyOverridesToDescription demoPackages demoHub
                            (demoDescription "Helm")))) !! 2%nat
     = Some [x20].
Proof.
  destruct (@ApplyOverridesToDescription_isolates_failures demoPackages demoHub
              (demoDescription "Helm") ltac:(left; reflexivity))
    as (Herr & _ & _ & Hslots).
  split.
  - rewrite Herr. vm_compute. reflexivity.
  - apply Hslots. vm_compute. reflexivity.
Defined.

(** A deployer that the hub does not know. *)
Lemma ApplyOverridesToDescription_unsupported_deployer_witness :
  @ApplyOverridesToDescription demoPackages demoHub (demoDescription "Kustomize")
  = (demoDescription "Kustomize", Some (Errorf "unsupported deployer Kustomize")).
Proof.
  apply (@ApplyOverridesToDescription_unsupported_deployer demoPackages demoHub
           (demoDescription "Kustomize")); discriminate.
Defined.

(** The slot of a failed entry, in either mode. *)
Lemma ApplyOverridesToDescription_failed_entry_witness :
  Raw (desc_Spec (fst (@ApplyOverridesToDescription demoPackages demoHub
                         (demoDescription "Helm")))) !! 1%nat
  = Some []
  /\ Raw (desc_Spec (fst (@ApplyOverridesToDescription demoPackages demoHub
                            (demoDescription "Generic")))) !! 0%nat
     = Some [x7b; x7d].
Proof.
  split.
  - apply (@ApplyOverridesToDescription_failed_entry demoPackages demoHub
             (demoDescription "Helm") 1%nat (ExternalError "malformed bad"));
      [left; reflexivity|vm_compute; reflexivity].
  - apply (@ApplyOverridesToDescription_failed_entry demoPackages demoHub
             (demoDescription "Generic") 0%nat (NewNotFound "Deployment" "{}"));
      [right; reflexivity|vm_compute; reflexivity].
Defined.

(** A Localization with the policy ApplyLater, pending deletion. *)
Lemma handler_removes_finalizer_witness :
  (exists done,
      @handle demoPackages demoHub (ALocalization demoDeletedLater)
      = (done ++ [@finalizerUpdate demoPackages (ALocalization demoDeletedLater)],
         @finalizerUpdateResult demoPackages demoHub (ALocalization demoDeletedLater))
      /\ Forall (fun e => isUpdate e = false) done)
  /\ ("apps.clusternet.io/finalizer"
      ∉ @finalizersSent demoPackages (ALocalization demoDeletedLater))
  /\ (forall f, f <> "apps.clusternet.io/finalizer" ->
                (f ∈ @finalizersSent demoPackages (ALocalization demoDeletedLater))
                <-> (f ∈ Finalizers (loc_meta demoDeletedLater))).
Proof.
  apply (@handler_removes_finalizer demoPackages demoHub (ALocalization demoDeletedLater)).
  - discriminate.
  - right. split; [discriminate|reflexivity].
Defined.

(** A Localization of a chart that does not exist, on a hub that accepts
    updates. *)
Lemma handler_target_missing_witness :
  Forall (fun e => isCallback e = false)
         (fst (@handle demoPackages demoHub (ALocalization demoDeletedOrphan)))
  /\ snd (@handle demoPackages demoHub (ALocalization demoDeletedOrphan)) = None.
Proof.
  apply (@handler_target_missing demoPackages demoHub (ALocalization demoDeletedOrphan)).
  - reflexivity.
  - left. split; [reflexivity|].
    exists (NewNotFound "helmcharts" "absent"). split; vm_compute; reflexivity.
Defined.

(** Against C3 as it is worded: a Localization pending deletion whose policy
    is not a supported one is left with its finalizer, no update is sent. *)
Lemma unsupported_policy_keeps_finalizer :
  DeletionTimestamp (loc_meta demoDeletedInvalid) <> None
  /\ @handleLocalization demoPackages demoHub demoDeletedInvalid
     = ([RecordedEvent "invalid" "Warning" "InvalidOverridePolicy"
           "unsupported OverridePolicy ApplyEventually"], None)
  /\ ~ In (@finalizerUpdate demoPackages (ALocalization demoDeletedInvalid))
          (fst (@handleLocalization demoPackages demoHub demoDeletedInvalid)).
Proof.
  split; [discriminate|]. split; [vm_compute; reflexivity|].
  intros [Hin|[]]. discriminate.
Qed.

(** Against C7 as it is worded: with the policy ApplyNow and a missing
    target, the handler of a Localization pending deletion returns the error
    of the update that the API server refused. *)
Lemma target_missing_update_refused :
  @declPolicy (ALocalization demoDeletedOrphan) = "ApplyNow"
  /\ @targetMissing demoPackages demoConflictHub (loc_Feed (loc_Spec demoDeletedOrphan))
  /\ snd (@handleLocalization demoPackages demoConflictHub demoDeletedOrphan)
     = Some (ExternalError "the object has been modified").
Proof.
  split; [reflexivity|]. split.
  - left. split; [reflexivity|].
    exists (NewNotFound "helmcharts" "absent"). split; vm_compute; reflexivity.
  - vm_compute. reflexivity.
Qed.

(** * Further properties of the localizer *)

(** ** More on the order of [getOverrides] *)

Lemma Permutation_List_filter {A} (p : A -> bool) (l1 l2 : list A) :
  l1 ≡ₚ l2 -> List.filter p l1 ≡ₚ List.filter p l2.
Proof.
  induction 1 as [|x l1 l2 _ IH|x y l|l1 l2 l3 _ IH1 _ IH2]; simpl.
  - done.
  - destruct (p x); by rewrite IH.
  - destruct (p x), (p y); try done. apply Permutation_swap.
  - by rewrite IH1.
Qed.

(** Two sorted arrangements of the same elements are equal when the
    comparison never ties on them. *)
Lemma sorted_arrangement_unique {A} (less : A -> A -> bool) (l1 l2 : list A) :
  (forall a b, a ∈ l1 -> b ∈ l1 -> less a b = false -> less b a = false -> a = b) ->
  StronglySorted (mayPrecede less) l1 ->
  StronglySorted (mayPrecede less) l2 ->
  l1 ≡ₚ l2 -> l1 = l2.
Proof.
  revert l2. induction l1 as [|x l1 IH]; intros l2 Hties Hs1 Hs2 Hperm.
  - by apply Permutation_nil in Hperm.
  - destruct l2 as [|y l2]; [by apply Permutation_nil_r in Hperm|].
    apply StronglySorted_inv in Hs1 as [Hs1 Hx].
    apply StronglySorted_inv in Hs2 as [Hs2 Hy].
    rewrite Forall_forall in Hx, Hy.
    assert (x = y) as <-.
    { assert (Hxin : x ∈ y :: l2) by (rewrite <- Hperm; left).
      assert (Hyin : y ∈ x :: l1) by (rewrite Hperm; left).
      apply elem_of_cons in Hxin as [Hxy|Hxin]; [done|].
      apply elem_of_cons in Hyin as [Hyx|Hyin]; [done|].
      apply Hties; [left|by right|by apply Hy|by apply Hx]. }
    f_equal. apply IH; [|done|done|by apply Permutation_cons_inv in Hperm].
    intros a b Ha Hb. apply Hties; by right.
Qed.

Lemma elem_of_List_filter {A} (p : A -> bool) (l : list A) (x : A) :
  x ∈ List.filter p l <-> x ∈ l /\ p x = true.
Proof. by rewrite !list_elem_of_In, filter_In. Qed.

(** A slice whose elements all tie is left as it is. *)
Lemma SliceStable_all_tie {A} (less : A -> A -> bool) (l : list A) :
  (forall a b, a ∈ l -> b ∈ l -> less a b = false) ->
  SliceStable less l = l.
Proof.
  induction l as [|x l IH]; intros Htie; simpl; [done|].
  rewrite IH by (intros a b Ha Hb; apply Htie; by right).
  destruct l as [|y l]; simpl; [done|].
  by rewrite Htie by (by repeat constructor).
Qed.

Lemma sortedGlobs_by_key (globs : list Globalization) :
  StronglySorted keyLeGlob (SliceStable lessGlob globs).
Proof.
  apply StronglySorted_impl with (R := mayPrecede lessGlob).
  - intros a b. unfold mayPrecede, lessGlob, keyLeGlob. case_match; lia.
  - apply SliceStable_sorted; [apply lessGlob_asym|apply lessGlob_mayPrecede_trans].
Qed.

Lemma sortedLocs_by_key (locs : list Localization) :
  StronglySorted keyLeLoc (SliceStable lessLoc locs).
Proof.
  apply StronglySorted_impl with (R := mayPrecede lessLoc).
  - intros a b. unfold mayPrecede, lessLoc, keyLeLoc. case_match; lia.
  - apply SliceStable_sorted; [apply lessLoc_asym|apply lessLoc_mayPrecede_trans].
Qed.

Lemma sortedGlobs_stable (p s : Z) (globs : list Globalization) :
  List.filter (tiesGlob p s) (SliceStable lessGlob globs)
  = List.filter (tiesGlob p s) globs.
Proof.
  rewrite SliceStable_filter
    by (try apply lessGlob_asym; apply lessGlob_mayPrecede_trans).
  apply SliceStable_all_tie. intros a b [_ Ha]%elem_of_List_filter [_ Hb]%elem_of_List_filter.
  unfold tiesGlob, lessGlob in *. repeat case_match; lia.
Qed.

Lemma sortedLocs_stable (p s : Z) (locs : list Localization) :
  List.filter (tiesLoc p s) (SliceStable lessLoc locs)
  = List.filter (tiesLoc p s) locs.
Proof.
  rewrite SliceStable_filter
    by (try apply lessLoc_asym; apply lessLoc_mayPrecede_trans).
  apply SliceStable_all_tie. intros a b [_ Ha]%elem_of_List_filter [_ Hb]%elem_of_List_filter.
  unfold tiesLoc, lessLoc in *. repeat case_match; lia.
Qed.

Lemma sortedGlobs_unique (G G' : list Globalization) :
  noTieGlobs G -> G ≡ₚ G' -> SliceStable lessGlob G = SliceStable lessGlob G'.
Proof.
  intros Hties Hperm.
  pose proof (SliceStable_perm lessGlob G) as HG.
  apply sorted_arrangement_unique with (less := lessGlob).
  - intros a b Ha Hb Hab Hba. rewrite HG in Ha, Hb.
    apply Hties; [done|done|..]; unfold lessGlob in *; repeat case_match; lia.
  - apply SliceStable_sorted; [apply lessGlob_asym|apply lessGlob_mayPrecede_trans].
  - apply SliceStable_sorted; [apply lessGlob_asym|apply lessGlob_mayPrecede_trans].
  - by rewrite !SliceStable_perm.
Qed.

Lemma sortedLocs_unique (L L' : list Localization) :
  noTieLocs L -> L ≡ₚ L' -> SliceStable lessLoc L = SliceStable lessLoc L'.
Proof.
  intros Hties Hperm.
  pose proof (SliceStable_perm lessLoc L) as HL.
  apply sorted_arrangement_unique with (less := lessLoc).
  - intros a b Ha Hb Hab Hba. rewrite HL in Ha, Hb.
    apply Hties; [done|done|..]; unfold lessLoc in *; repeat case_match; lia.
  - apply SliceStable_sorted; [apply lessLoc_asym|apply lessLoc_mayPrecede_trans].
  - apply SliceStable_sorted; [apply lessLoc_asym|apply lessLoc_mayPrecede_trans].
  - by rewrite !SliceStable_perm.
Qed.

Section GetOverridesMore.

Context `{Packages}.

(** X1: the order in which the informer caches list the declarations does
    not matter as long as no two declarations of a kind tie (same priority
    and same second of the minute): two localizers that resolve the target
    alike and whose listers return the same declarations in any order
    compute the same overrides. *)
Theorem getOverrides_lister_order_irrelevant (l l' : Localizer) (namespace : string)
    (feed : Feed.t) (uid : string) (G G' : list Globalization)
    (L L' : list Localization) :
  targetUID l feed = Ok uid ->
  targetUID l' feed = Ok uid ->
  globLister l {[ uid := Feed.Kind feed ]} = Ok G ->
  globLister l' {[ uid := Feed.Kind feed ]} = Ok G' ->
  locLister l namespace {[ uid := Feed.Kind feed ]} = Ok L ->
  locLister l' namespace {[ uid := Feed.Kind feed ]} = Ok L' ->
  G ≡ₚ G' -> L ≡ₚ L' ->
  noTieGlobs G -> noTieLocs L ->
  getOverrides l namespace feed = getOverrides l' namespace feed.
Proof.
  intros Huid Huid' HG HG' HL HL' HpG HpL HtG HtL.
  rewrite (getOverrides_resolved l namespace feed uid G L) by done.
  rewrite (getOverrides_resolved l' namespace feed uid G' L') by done.
  do 2 f_equal.
  - f_equal. apply sortedGlobs_unique.
    + intros a b [Ha _]%elem_of_List_filter [Hb _]%elem_of_List_filter.
      by apply HtG.
    + by apply Permutation_List_filter.
  - f_equal. apply sortedLocs_unique.
    + intros a b [Ha _]%elem_of_List_filter [Hb _]%elem_of_List_filter.
      by apply HtL.
    + by apply Permutation_List_filter.
Qed.

(** X2: the order that [getOverrides] computes within a kind: ascending in
    priority, then ascending in the second of the minute of the creation
    time; declarations that tie on both stay in the order of the lister. *)
Theorem getOverrides_order_within_kind (l : Localizer) (namespace : string)
    (feed : Feed.t) (uid : string) (G : list Globalization) (L : list Localization) :
  targetUID l feed = Ok uid ->
  globLister l {[ uid := Feed.Kind feed ]} = Ok G ->
  locLister l namespace {[ uid := Feed.Kind feed ]} = Ok L ->
  exists (S : list Globalization) (T : list Localization),
    getOverrides l namespace feed = Ok (overridesOfGlobs S ++ overridesOfLocs T)
    /\ S ≡ₚ List.filter activeGlob G
    /\ StronglySorted keyLeGlob S
    /\ (forall p s, List.filter (tiesGlob p s) S
                    = List.filter (tiesGlob p s) (List.filter activeGlob G))
    /\ T ≡ₚ List.filter activeLoc L
    /\ StronglySorted keyLeLoc T
    /\ (forall p s, List.filter (tiesLoc p s) T
                    = List.filter (tiesLoc p s) (List.filter activeLoc L)).
Proof.
  intros Huid HG HL.
  exists (SliceStable lessGlob (List.filter activeGlob G)),
         (SliceStable lessLoc (List.filter activeLoc L)).
  split; [by apply getOverrides_resolved with uid|].
  split; [apply SliceStable_perm|].
  split; [apply sortedGlobs_by_key|].
  split; [intros p s; apply sortedGlobs_stable|].
  split; [apply SliceStable_perm|].
  split; [apply sortedLocs_by_key|].
  intros p s; apply sortedLocs_stable.
Qed.

(** X3: [getOverrides] fails exactly when the target does not resolve or a
    lister fails, and then with the error of the first of these steps that
    fails; no error is made up and none is dropped. *)
Theorem getOverrides_fails_iff (l : Localizer) (namespace : string) (feed : Feed.t)
    (err : error) :
  getOverrides l namespace feed = Fail err
  <-> targetUID l feed = Fail err
      \/ exists uid,
           targetUID l feed = Ok uid
           /\ (globLister l {[ uid := Feed.Kind feed ]} = Fail err
               \/ exists G,
                    globLister l {[ uid := Feed.Kind feed ]} = Ok G
                    /\ locLister l namespace {[ uid := Feed.Kind feed ]} = Fail err).
Proof.
  unfold getOverrides.
  destruct (targetUID l feed) as [uid|e]; simpl.
  - destruct (globLister l {[ uid := Feed.Kind feed ]}) as [G|e] eqn:HG; simpl.
    + destruct (locLister l namespace {[ uid := Feed.Kind feed ]}) as [L|e] eqn:HL; simpl.
      * split; [done|].
        intros [?|(uid' & ? & [?|(G' & ? & ?)])]; congruence.
      * split.
        -- intros [= ->]. right. exists uid. split; [done|]. right. by exists G.
        -- intros [?|(uid' & ? & [?|(G' & ? & ?)])]; congruence.
    + split.
      * intros [= ->]. right. exists uid. split; [done|]. by left.
      * intros [?|(uid' & ? & [?|(G' & ? & ?)])]; congruence.
  - split.
    + intros [= ->]. by left.
    + intros [?|(uid & ? & _)]; congruence.
Qed.

(** X4: the result holds the overrides of the active matching declarations
    and nothing else, each as often as it is declared. *)
Theorem getOverrides_same_overrides (l : Localizer) (namespace : string)
    (feed : Feed.t) (uid : string) (G : list Globalization) (L : list Localization) :
  targetUID l feed = Ok uid ->
  globLister l {[ uid := Feed.Kind feed ]} = Ok G ->
  locLister l namespace {[ uid := Feed.Kind feed ]} = Ok L ->
  exists result,
    getOverrides l namespace feed = Ok result
    /\ result ≡ₚ overridesOfGlobs (List.filter activeGlob G)
                 ++ overridesOfLocs (List.filter activeLoc L).
Proof.
  intros Huid HG HL. eexists. split; [by apply getOverrides_resolved with uid|].
  unfold overridesOfGlobs, overridesOfLocs.
  apply Permutation_app; apply Permutation_flat_map, SliceStable_perm.
Qed.

End GetOverridesMore.

(** ** More on the reconcile handlers *)

Section HandlersMore.

Context `{Packages}.

Ltac decide_switch :=
  repeat match goal with
    | Heq : ?a = ?b |- context [String.eqb ?a ?b] =>
        rewrite (proj2 (String.eqb_eq a b) Heq)
    | Hne : ?a <> ?b |- context [String.eqb ?a ?b] =>
        rewrite (proj2 (String.eqb_neq a b) Hne)
    end.

(** X5: a declaration with an override policy that is neither ApplyNow nor
    ApplyLater gets one warning event and nothing else: the handler returns
    [nil], and sends no update even when the declaration is pending
    deletion. *)
Theorem handler_unsupported_policy (l : Localizer) (d : Declaration) :
  declPolicy d <> ApplyNow ->
  declPolicy d <> ApplyLater ->
  handle l d
  = ([RecordedEvent (Name (declMeta d)) EventTypeWarning "InvalidOverridePolicy"
        ("unsupported OverridePolicy " +:+ declPolicy d)],
     None).
Proof.
  intros Hnow Hlater. destruct d as [loc|glob]; simpl in *.
  - unfold handleLocalization, policyLocalization. by decide_switch.
  - unfold handleGlobalization, policyGlobalization. by decide_switch.
Qed.

(** X7: with the policy ApplyNow and an existing target the handler calls
    the callback once, on the chart found or on the first manifest listed.
    When the callback fails the handler returns its error and leaves the
    finalizer alone; otherwise it goes on to the finalizer step. *)
Theorem handler_apply_now_callback (l : Localizer) (d : Declaration)
    (call : Effect) (result : option error) :
  declPolicy d = ApplyNow ->
  callbackOutcome l (declFeed d) call result ->
  handle l d
  = match result with
    | Some err => ([call], Some err)
    | None => finalizerStep l d [call]
    end.
Proof.
  intros Hpolicy [[Hkind (chart & Hget & -> & ->)]
                 |[Hkind (first & others & Hlist & -> & ->)]];
    destruct d as [loc|glob]; simpl in *;
    unfold handleLocalization, policyLocalization,
           handleGlobalization, policyGlobalization, finalizerStep;
    simpl; decide_switch; simpl.
  - rewrite Hget. destruct (chartCallback l chart); [done|].
    by destruct (DeletionTimestamp (loc_meta loc)).
  - rewrite Hget. destruct (chartCallback l chart); [done|].
    by destruct (DeletionTimestamp (glob_meta glob)).
  - rewrite Hlist. destruct (manifestCallback l first); [done|].
    by destruct (DeletionTimestamp (loc_meta loc)).
  - rewrite Hlist. destruct (manifestCallback l first); [done|].
    by destruct (DeletionTimestamp (glob_meta glob)).
Qed.

(** X8: with the policy ApplyNow, a lookup that fails otherwise than by a
    missing chart (any error of the manifest listing included) ends the
    handler with that error, before any callback and any update. *)
Theorem handler_apply_now_lookup_error (l : Localizer) (d : Declaration) (err : error) :
  declPolicy d = ApplyNow ->
  lookupFails l (declFeed d) err ->
  handle l d = ([], Some err).
Proof.
  intros Hpolicy [(Hkind & Hget & Hother)|[Hkind Hlist]];
    destruct d as [loc|glob]; simpl in *;
    unfold handleLocalization, policyLocalization,
           handleGlobalization, policyGlobalization;
    simpl; decide_switch; simpl.
  - by rewrite Hget, Hother.
  - by rewrite Hget, Hother.
  - by rewrite Hlist.
  - by rewrite Hlist.
Qed.

(** X9: with the policy ApplyLater the handler looks nothing up and calls
    nothing back; all it does is the finalizer step. *)
Theorem handler_apply_later (l : Localizer) (d : Declaration) :
  declPolicy d <> ApplyNow ->
  declPolicy d = ApplyLater ->
  handle l d = finalizerStep l d [].
Proof.
  intros Hnow Hlater. destruct d as [loc|glob]; simpl in *;
    unfold handleLocalization, policyLocalization,
           handleGlobalization, policyGlobalization, finalizerStep;
    simpl; decide_switch; simpl.
  - by destruct (DeletionTimestamp (loc_meta loc)).
  - by destruct (DeletionTimestamp (glob_meta glob)).
Qed.

End HandlersMore.

Section HandlerEffects.

Context `{Packages}.

(** X6: whatever the declaration and the state of the hub, a handler calls
    back at most once and sends at most one update; an update is sent only
    for a declaration pending deletion, it is the removal of the finalizer,
    and it is the last thing the handler does. *)
Theorem handler_effects_shape (l : Localizer) (d : Declaration) :
  (length (List.filter isCallback (fst (handle l d))) <= 1)%nat
  /\ (length (List.filter isUpdate (fst (handle l d))) <= 1)%nat
  /\ (forall e, e ∈ fst (handle l d) -> isUpdate e = true ->
        e = finalizerUpdate d
        /\ last (fst (handle l d)) = Some e
        /\ DeletionTimestamp (declMeta d) <> None).
Proof.
  destruct d as [loc|glob]; simpl;
    unfold handleLocalization, policyLocalization,
           handleGlobalization, policyGlobalization, locCopyOf, globCopyOf;
    repeat case_match; simplify_eq/=;
    (split; [lia|]); (split; [lia|]);
    intros eff Heff Hup;
    repeat (apply elem_of_cons in Heff as [->|Heff]);
    try (by apply elem_of_nil in Heff);
    simpl in Hup; try discriminate;
    (split; [reflexivity|]); (split; [reflexivity|congruence]).
Qed.

End HandlerEffects.

(** ** More on [ApplyOverridesToDescription] *)

Section DescriptionMore.

Context `{Packages}.

(** X10: the call changes nothing of a description but its raw payloads,
    and leaves one payload per chart reference in the Helm mode and as many
    payloads as there were in every other case. *)
Theorem ApplyOverridesToDescription_frame (l : Localizer) (desc : Description) :
  desc_meta (fst (ApplyOverridesToDescription l desc)) = desc_meta desc
  /\ Deployer (desc_Spec (fst (ApplyOverridesToDescription l desc)))
     = Deployer (desc_Spec desc)
  /\ Charts (desc_Spec (fst (ApplyOverridesToDescription l desc)))
     = Charts (desc_Spec desc)
  /\ length (Raw (desc_Spec (fst (ApplyOverridesToDescription l desc))))
     = if String.eqb (Deployer (desc_Spec desc)) DescriptionHelmDeployer
       then length (Charts (desc_Spec desc))
       else length (Raw (desc_Spec desc)).
Proof.
  unfold ApplyOverridesToDescription.
  destruct (String.eqb (Deployer (desc_Spec desc)) DescriptionHelmDeployer).
  - rewrite helmLoop_whole by apply length_replicate. simpl.
    repeat split. by rewrite length_zip_with, length_replicate, length_map, Nat.min_id.
  - destruct (String.eqb (Deployer (desc_Spec desc)) DescriptionGenericDeployer).
    + rewrite genericLoop_whole. simpl.
      repeat split. by rewrite length_zip_with, length_map, Nat.min_id.
    + done.
Qed.

(** X11: in the Helm mode the payloads that the description held before the
    call have no part in what the call leaves or returns. *)
Theorem ApplyOverridesToDescription_helm_discards_raw (l : Localizer)
    (desc : Description) (raw : list bytes) :
  Deployer (desc_Spec desc) = DescriptionHelmDeployer ->
  ApplyOverridesToDescription l (setRaw desc raw) = ApplyOverridesToDescription l desc.
Proof.
  intros Hhelm. unfold ApplyOverridesToDescription. simpl.
  apply String.eqb_eq in Hhelm. rewrite Hhelm.
  by destruct (helmLoop _ _ _ _ _ _).
Qed.

End DescriptionMore.

(** * The default binder *)

Lemma ascii_compare_Lt_trans (x y z : Ascii.ascii) :
  Ascii.compare x y = Lt -> Ascii.compare y z = Lt -> Ascii.compare x z = Lt.
Proof. unfold Ascii.compare. rewrite !N.compare_lt_iff. lia. Qed.

Lemma string_compare_Lt_trans (a b c : string) :
  String.compare a b = Lt -> String.compare b c = Lt -> String.compare a c = Lt.
Proof.
  revert b c. induction a as [|x a IH]; intros [|y b] [|z c]; simpl; try done.
  destruct (Ascii.compare x y) eqn:Hxy; [|clear IH|done];
    (destruct (Ascii.compare y z) eqn:Hyz; [| |done]).
  - apply Ascii.compare_eq_iff in Hxy as ->. rewrite Hyz. apply IH.
  - apply Ascii.compare_eq_iff in Hxy as ->. by rewrite Hyz.
  - apply Ascii.compare_eq_iff in Hyz as <-. by rewrite Hxy.
  - by rewrite (ascii_compare_Lt_trans x y z).
Qed.

Lemma string_ltb_asym (a b : string) : String.ltb a b = true -> String.ltb b a = false.
Proof.
  unfold String.ltb. rewrite (String.compare_antisym a b).
  by destruct (String.compare b a).
Qed.

Lemma string_ltb_no_tie (a b : string) :
  String.ltb a b = false -> String.ltb b a = false -> a = b.
Proof.
  unfold String.ltb. rewrite (String.compare_antisym a b).
  destruct (String.compare b a) eqn:Hba; simpl; try done.
  intros _ _. symmetry. by apply String.compare_eq_iff.
Qed.

Lemma string_ltb_mayPrecede_trans (a b c : string) :
  mayPrecede String.ltb a b -> mayPrecede String.ltb b c -> mayPrecede String.ltb a c.
Proof.
  unfold mayPrecede. intros Hba Hcb.
  destruct (String.ltb c a) eqn:Hca; [|done].
  destruct (String.ltb b c) eqn:Hbc.
  - exfalso. unfold String.ltb in *.
    destruct (String.compare b c) eqn:E1; try done.
    destruct (String.compare c a) eqn:E2; try done.
    by rewrite (string_compare_Lt_trans b c a) in Hba.
  - rewrite (string_ltb_no_tie b c) in Hba by done. congruence.
Qed.

Section Binder.

Context `{SubscriptionPackages}.

Import defaultbinder.

(** X12: [Bind] sends, to the namespace of the subscription, a copy whose
    status lists the given clusters in ascending order, counts them as the
    desired releases and carries the hash of the spec; nothing else of the
    subscription changes.  The caller's slice is left in that same order,
    and the status returned is [nil] exactly when the update succeeds. *)
Theorem Bind_sends_sorted_bindings (pl : DefaultBinder) (sub : Subscription)
    (namespacedClusters : list string) :
  BindingClusters (sub_Status (bound_update (Bind pl sub namespacedClusters)))
  ≡ₚ namespacedClusters
  /\ StronglySorted (fun a b => String.leb a b = true)
       (BindingClusters (sub_Status (bound_update (Bind pl sub namespacedClusters))))
  /\ DesiredReleases (sub_Status (bound_update (Bind pl sub namespacedClusters)))
     = Z.of_nat (length namespacedClusters)
  /\ SpecHash (sub_Status (bound_update (Bind pl sub namespacedClusters)))
     = HashSubscriptionSpec (sub_Spec sub)
  /\ CompletedReleases (sub_Status (bound_update (Bind pl sub namespacedClusters)))
     = CompletedReleases (sub_Status sub)
  /\ sub_meta (bound_update (Bind pl sub namespacedClusters)) = sub_meta sub
  /\ sub_Spec (bound_update (Bind pl sub namespacedClusters)) = sub_Spec sub
  /\ bound_namespace (Bind pl sub namespacedClusters) = Namespace (sub_meta sub)
  /\ bound_clusters (Bind pl sub namespacedClusters)
     = BindingClusters (sub_Status (bound_update (Bind pl sub namespacedClusters)))
  /\ (bound_status (Bind pl sub namespacedClusters) = None
      <-> UpdateStatus (handle pl) (Namespace (sub_meta sub))
            (bound_update (Bind pl sub namespacedClusters)) = None).
Proof.
  simpl. split; [apply SliceStable_perm|].
  split.
  { apply StronglySorted_impl with (R := mayPrecede String.ltb).
    - intros a b. unfold mayPrecede, String.ltb, String.leb.
      rewrite (String.compare_antisym a b). by destruct (String.compare b a).
    - apply SliceStable_sorted;
        [apply string_ltb_asym|apply string_ltb_mayPrecede_trans]. }
  split; [by rewrite SliceStable_perm|].
  repeat (split; [done|]).
  by destruct (UpdateStatus _ _ _).
Qed.

(** X13: the order in which the clusters are given makes no difference to
    what [Bind] sends, leaves and returns. *)
Theorem Bind_order_irrelevant (pl : DefaultBinder) (sub : Subscription)
    (clusters clusters' : list string) :
  clusters ≡ₚ clusters' ->
  Bind pl sub clusters = Bind pl sub clusters'.
Proof.
  intros Hperm. unfold Bind.
  assert (SliceStable String.ltb clusters = SliceStable String.ltb clusters') as ->; [|done].
  apply sorted_arrangement_unique with (less := String.ltb).
  - intros a b _ _. apply string_ltb_no_tie.
  - apply SliceStable_sorted; [apply string_ltb_asym|apply string_ltb_mayPrecede_trans].
  - apply SliceStable_sorted; [apply string_ltb_asym|apply string_ltb_mayPrecede_trans].
  - by rewrite !SliceStable_perm.
Qed.

End Binder.

(** * The agent: labels and names of a registration request *)

Section AgentLabels.

Import agent.
Import Stdlib.Strings.Ascii.

Lemma hasByte_app (c : ascii) (a b : string) :
  hasByte c (a +:+ b) <-> hasByte c a \/ hasByte c b.
Proof.
  unfold hasByte. induction a as [|x a IH]; simpl; [tauto|].
  rewrite IH. tauto.
Qed.

Lemma Split_not_nil (s : string) (sep : ascii) : Split s sep <> [].
Proof.
  induction s as [|c s IH]; simpl; [done|].
  destruct (Ascii.eqb c sep); [done|]. by destruct (Split s sep).
Qed.

Lemma Split_no_sep (s : string) (sep : ascii) :
  ~ hasByte sep s -> Split s sep = [s].
Proof.
  unfold hasByte. induction s as [|c s IH]; simpl; intros Hno; [done|].
  destruct (Ascii.eqb_spec c sep) as [->|Hne]; [tauto|].
  rewrite IH by tauto. done.
Qed.

Lemma Split_app_sep (a b : string) (sep : ascii) :
  ~ hasByte sep a -> Split (a +:+ String sep b) sep = a :: Split b sep.
Proof.
  unfold hasByte. induction a as [|c a IH]; simpl; intros Hno.
  - by rewrite Ascii.eqb_refl.
  - destruct (Ascii.eqb_spec c sep) as [->|Hne]; [tauto|].
    rewrite IH by tauto. done.
Qed.

(** Splitting undoes joining, for pieces that do not hold the separator. *)
Lemma Split_concat (pieces : list string) (sep : ascii) :
  pieces <> [] ->
  Forall (fun piece => ~ hasByte sep piece) pieces ->
  Split (String.concat (String sep EmptyString) pieces) sep = pieces.
Proof.
  induction pieces as [|piece pieces IH]; intros Hne Hall; [done|].
  apply Forall_cons in Hall as [Hpiece Hall].
  destruct pieces as [|piece' pieces].
  - simpl. by apply Split_no_sep.
  - change (String.concat (String sep EmptyString) (piece :: piece' :: pieces))
      with (piece +:+ String sep (String.concat (String sep EmptyString) (piece' :: pieces))).
    rewrite Split_app_sep by done. by rewrite IH.
Qed.

(** Joining undoes splitting, and no piece holds the separator. *)
Lemma Split_spec (s : string) (sep : ascii) :
  String.concat (String sep EmptyString) (Split s sep) = s
  /\ Forall (fun piece => ~ hasByte sep piece) (Split s sep).
Proof.
  induction s as [|c s [IHc IHf]]; simpl.
  - split; [done|]. repeat constructor. intros [].
  - destruct (Ascii.eqb_spec c sep) as [->|Hne].
    + split.
      * pose proof (Split_not_nil s sep).
        destruct (Split s sep) as [|piece pieces]; [done|].
        simpl in *. by rewrite IHc.
      * constructor; [intros []|done].
    + pose proof (Split_not_nil s sep).
      destruct (Split s sep) as [|piece pieces]; [done|].
      apply Forall_cons in IHf as [Hpiece Hpieces]. split.
      * destruct pieces; simpl in *; by rewrite <- IHc.
      * constructor; [|done]. unfold hasByte in *. simpl. tauto.
Qed.

Lemma TrimSpace_isEmpty_no_byte (c : ascii) (s : string) :
  asciiSpace c = false -> (N_of_ascii c < 128)%N ->
  TrimSpace_isEmpty s = true -> ~ hasByte c s.
Proof.
  intros Hc Hlt.
  assert (forall (n : nat) s, (String.length s <= n)%nat ->
            TrimSpace_isEmpty s = true -> ~ hasByte c s) as Hind; [|by eauto].
  clear s. unfold hasByte.
  induction n as [|n IH]; intros s Hlen Hs.
  - destruct s; [intros []|simpl in Hlen; lia].
  - destruct s as [|c0 s1]; [intros []|]. simpl in Hs, Hlen.
    destruct (asciiSpace c0) eqn:Hc0.
    + intros [->|Hin]; [congruence|]. apply (IH s1); [lia|done|done].
    + destruct s1 as [|d s2]; [done|]. simpl in Hlen.
      destruct (byteIs 194 c0) eqn:H194.
      * apply andb_true_iff in Hs as [Hd Hs2].
        unfold byteIs in *.
        apply N.eqb_eq in H194.
        apply orb_true_iff in Hd. rewrite !N.eqb_eq in Hd.
        intros [->|[->|Hin]]; [lia|lia|]. apply (IH s2); [lia|done|done].
      * destruct s2 as [|e s3]; [done|]. simpl in Hlen.
        apply andb_true_iff in Hs as [Hrune Hs3].
        unfold spaceRune3, byteIs in Hrune.
        repeat rewrite ?orb_true_iff, ?andb_true_iff, ?N.eqb_eq, ?N.leb_le in Hrune.
        intros [->|[->|[->|Hin]]]; [lia|lia|lia|]. apply (IH s3); [lia|done|done].
Qed.

(** What the loop over the pieces builds, for pieces [key=value]. *)
Lemma labels_fold (labels : list (string * string)) (m : gmap string string) :
  Forall (fun kv => ~ hasByte "=" (fst kv) /\ ~ hasByte "=" (snd kv)) labels ->
  fold_left (fun clusterLabelsMap labelString =>
               match Split labelString "=" with
               | [key; value] => <[ key := value ]> clusterLabelsMap
               | _ => clusterLabelsMap
               end)
            (map (fun kv => fst kv +:+ "=" +:+ snd kv) labels) m
  = list_to_map (reverse labels) ∪ m.
Proof.
  revert m. induction labels as [|[k v] labels IH]; intros m Hall; simpl.
  - by rewrite (left_id _ _).
  - apply Forall_cons in Hall as [[Hk Hv] Hall]. simpl in Hk, Hv.
    change (k +:+ "=" +:+ v) with (k +:+ String "=" v).
    rewrite Split_app_sep, Split_no_sep by done.
    rewrite IH by done.
    rewrite reverse_cons, list_to_map_app. simpl.
    rewrite <- (assoc_L _). f_equal.
    by rewrite insert_union_singleton_l, insert_empty.
Qed.

(** X14: the labels written as [k1=v1,k2=v2,...], with keys and values that
    hold neither a comma nor an equals sign, are read back as they were
    written; of two values given for one key the later one is kept. *)
Theorem parseClusterLabels_round_trip (labels : list (string * string)) :
  labels <> [] ->
  Forall (fun kv => ~ hasByte "," (fst kv) /\ ~ hasByte "=" (fst kv)
                    /\ ~ hasByte "," (snd kv) /\ ~ hasByte "=" (snd kv)) labels ->
  parseClusterLabels (labelText labels) = Some (list_to_map (reverse labels)).
Proof.
  intros Hne Hall. unfold parseClusterLabels, labelText.
  destruct (TrimSpace_isEmpty _) eqn:Hblank.
  - exfalso. destruct labels as [|[k v] labels]; [done|].
    apply (TrimSpace_isEmpty_no_byte "=") in Hblank; [|done|done].
    apply Hblank. simpl.
    destruct (map _ labels); simpl; rewrite ?hasByte_app;
      [right; left; by left|left; right; left; by left].
  - rewrite Split_concat.
    + rewrite labels_fold; [by rewrite (right_id _ _)|].
      eapply Forall_impl; [exact Hall|]. simpl. tauto.
    + by destruct labels.
    + apply Forall_map. eapply Forall_impl; [exact Hall|].
      intros [k v]; simpl. rewrite !hasByte_app. unfold hasByte at 3. simpl.
      intros (? & ? & ? & ?) [?|[[?|[]]|?]]; done.
Qed.

Lemma labels_fold_sound (pieces : list string) (m : gmap string string)
    (k v : string) :
  fold_left (fun clusterLabelsMap labelString =>
               match Split labelString "=" with
               | [key; value] => <[ key := value ]> clusterLabelsMap
               | _ => clusterLabelsMap
               end) pieces m !! k = Some v ->
  m !! k = Some v \/ exists piece, piece ∈ pieces /\ Split piece "=" = [k; v].
Proof.
  revert m. induction pieces as [|piece pieces IH]; intros m; simpl; [by left|].
  intros [Hm|(piece' & Hin & Hsplit)]%IH.
  - destruct (Split piece "=") as [|key [|value [|? ?]]] eqn:Hsplit; try by left.
    destruct (decide (key = k)) as [->|Hne].
    + rewrite lookup_insert_eq in Hm. injection Hm as ->.
      right. exists piece. split; [left|done].
    + rewrite lookup_insert_ne in Hm by done. by left.
  - right. exists piece'. split; [by right|done].
Qed.

(** X15: every label that [parseClusterLabels] returns stands in the text as
    one piece [key=value] between commas, and neither its key nor its value
    holds a comma or an equals sign: pieces without an equals sign or with
    more than one are left out. *)
Theorem parseClusterLabels_sound (clusterLabels : string)
    (m : gmap string string) (k v : string) :
  parseClusterLabels clusterLabels = Some m ->
  m !! k = Some v ->
  (k +:+ "=" +:+ v) ∈ Split clusterLabels ","
  /\ ~ hasByte "," k /\ ~ hasByte "=" k /\ ~ hasByte "," v /\ ~ hasByte "=" v.
Proof.
  unfold parseClusterLabels. destruct (TrimSpace_isEmpty clusterLabels); [done|].
  intros [= <-] [Hempty|(piece & Hin & Hsplit)]%labels_fold_sound; [done|].
  destruct (Split_spec piece "=") as [Hjoin Hfree].
  rewrite Hsplit in Hjoin, Hfree. simpl in Hjoin. subst piece.
  apply Forall_cons in Hfree as [Hk [Hv _]%Forall_cons].
  destruct (Split_spec clusterLabels ",") as [_ Hcomma].
  rewrite Forall_forall in Hcomma. specialize (Hcomma _ Hin).
  change (k +:+ String "=" v) with (k +:+ "=" +:+ v) in *.
  rewrite !hasByte_app in Hcomma. tauto.
Qed.

Context `{KnownNames}.

Lemma append_inj_r (p a b : string) : p +:+ a = p +:+ b -> a = b.
Proof. induction p as [|c p IH]; simpl; [done|]. intros [= Heq]. auto. Qed.

(** X16: clusters with different identifiers get registration requests with
    different names. *)
Theorem generateClusterRegistrationRequestName_inj (clusterID clusterID' : string) :
  generateClusterRegistrationRequestName clusterID
  = generateClusterRegistrationRequestName clusterID' ->
  clusterID = clusterID'.
Proof. apply append_inj_r. Qed.

(** X17: a cluster name is never empty: a name that is given is kept, and
    the one made up in its place holds at least the dash. *)
Theorem generateClusterName_not_empty (clusterName clusterNamePrefix random : string) :
  generateClusterName clusterName clusterNamePrefix random <> ""
  /\ (clusterName = ""
      \/ generateClusterName clusterName clusterNamePrefix random = clusterName).
Proof.
  unfold generateClusterName. destruct clusterName as [|c name]; simpl.
  - split; [|by left]. destruct clusterNamePrefix; done.
  - split; [done|by right].
Qed.

End AgentLabels.

(** * Helm utilities *)

Section HelmUtils.

Import utils.

Lemma stripPrefix_app (prefix rest : string) :
  stripPrefix prefix (prefix +:+ rest) = Some rest.
Proof.
  induction prefix as [|c prefix IH]; simpl; [done|].
  by rewrite Ascii.eqb_refl.
Qed.

Lemma hasTag_true (tags : list string) (chartVersion : string) :
  hasTag tags chartVersion = true <-> chartVersion ∈ tags.
Proof.
  induction tags as [|tag tags IH]; simpl.
  - split; [done|]. by intros ?%elem_of_nil.
  - rewrite elem_of_cons. destruct (String.eqb_spec tag chartVersion) as [->|Hne].
    + split; [by left|done].
    + rewrite IH. split; [by right|]. by intros [->|?].
Qed.

(** X18: with a registry client that can be set up and a repository whose
    tags can be listed, [FindOCIChart] answers whether the version is among
    the tags; the repository is looked up under its address without the
    scheme [oci://], followed by the name of the chart. *)
Theorem FindOCIChart_found_iff (client : RegistryClient)
    (chartRepo chartName chartVersion : string) (tags : list string) :
  WithResolver client true false = None ->
  Tags client (TrimPrefix chartRepo "oci://" +:+ "/" +:+ chartName) = Ok tags ->
  exists found,
    FindOCIChart (Ok client) chartRepo chartName chartVersion = Ok found
    /\ (found = true <-> chartVersion ∈ tags).
Proof.
  intros Hresolver Htags. exists (hasTag tags chartVersion).
  split; [|apply hasTag_true].
  unfold FindOCIChart. simpl. rewrite Hresolver.
  change (OCIScheme +:+ "://") with "oci://". by rewrite Htags.
Qed.

(** X19: writing the scheme [oci://] in front of the address of a
    repository makes no difference to [FindOCIChart]. *)
Theorem FindOCIChart_scheme_irrelevant (newClient : res RegistryClient)
    (address chartName chartVersion : string) :
  HasPrefix address "oci://" = false ->
  FindOCIChart newClient ("oci://" +:+ address) chartName chartVersion
  = FindOCIChart newClient address chartName chartVersion.
Proof.
  unfold HasPrefix, FindOCIChart, TrimPrefix. intros Hno.
  change (OCIScheme +:+ "://") with "oci://".
  rewrite stripPrefix_app.
  by destruct (stripPrefix "oci://" address).
Qed.

(** X20: [LocateAuthHelmChart] never hands out a chart that cannot be
    installed: a chart that it returns is the one loaded from the path
    found, and its type is empty or [application]. *)
Theorem LocateAuthHelmChart_installable
    (LocateChart : ChartPathOptions -> string -> res string)
    (loader_Load : string -> res Chart)
    (chartRepo username password chartName chartVersion : string) (chart : Chart) :
  LocateAuthHelmChart LocateChart loader_Load chartRepo username password
    chartName chartVersion = Ok chart ->
  (Metadata_Type chart = "" \/ Metadata_Type chart = "application")
  /\ exists options name path,
       LocateChart options name = Ok path
       /\ loader_Load path = Ok chart
       /\ Version options = chartVersion
       /\ Username options = username
       /\ Password options = password
       /\ InsecureSkipTLSverify options = true
       /\ (if IsOCI chartRepo
           then RepoURL options = "" /\ name = chartRepo +:+ "/" +:+ chartName
           else RepoURL options = chartRepo /\ name = chartName).
Proof.
  unfold LocateAuthHelmChart.
  destruct (IsOCI chartRepo) eqn:Hoci;
    (destruct (LocateChart _ _) as [path|e] eqn:Hpath; simpl; [|done]);
    (destruct (loader_Load path) as [loaded|e] eqn:Hload; simpl; [|done]);
    unfold CheckIfInstallable;
    (destruct (_ || _) eqn:Htype; [|done]);
    intros [= <-];
    apply orb_true_iff in Htype; rewrite !String.eqb_eq in Htype;
    (split; [done|]);
    eexists _, _, path; (split; [exact Hpath|]); by repeat split.
Qed.

(** X21: [GetHelmRepoCredentials] succeeds exactly when the secret can be
    read and holds both the username and the password, and then returns
    what it holds; a secret without username is reported as such whatever
    else it lacks. *)
Theorem GetHelmRepoCredentials_spec (getSecret : string -> string -> res Secret)
    (secretName namespace : string) :
  (forall username password,
     GetHelmRepoCredentials getSecret secretName namespace = Ok (username, password)
     <-> exists secret u p,
           getSecret namespace secretName = Ok secret
           /\ secret_Data secret !! "username" = Some u
           /\ secret_Data secret !! "password" = Some p
           /\ username = String.string_of_list_byte u
           /\ password = String.string_of_list_byte p)
  /\ (forall secret,
        getSecret namespace secretName = Ok secret ->
        secret_Data secret !! "username" = None ->
        GetHelmRepoCredentials getSecret secretName namespace
        = Fail (Errorf ("secret " +:+ namespace +:+ "/" +:+ secretName
                        +:+ " does not contain username"))).
Proof.
  unfold GetHelmRepoCredentials, UsernameKey, PasswordKey. split.
  - intros username password.
    destruct (getSecret namespace secretName) as [secret|e]; simpl.
    + destruct (secret_Data secret !! "username") as [u|] eqn:Hu.
      * destruct (secret_Data secret !! "password") as [p|] eqn:Hp.
        -- split.
           ++ intros [= <- <-]. by exists secret, u, p.
           ++ intros (secret' & u' & p' & [= <-] & Hu' & Hp' & -> & ->).
              congruence.
        -- split; [done|].
           intros (secret' & u' & p' & [= <-] & Hu' & Hp' & _). congruence.
      * split; [done|].
        intros (secret' & u' & p' & [= <-] & Hu' & _). congruence.
    + split; [done|]. by intros (secret' & u' & p' & ? & _).
  - intros secret Hget Hnone. rewrite Hget. cbv beta iota delta [bind].
    unfold bytes in *. by rewrite Hnone.
Qed.

End HelmUtils.

(** * Concrete runs of the further properties *)

(** The case of the test of the binder: two clusters given out of order. *)
Example run_Bind :
  BindingClusters
    (defaultbinder.sub_Status
       (defaultbinder.bound_update
          (defaultbinder.Bind demoBinder demoSubscription demoClusters)))
  = ["cluster-ns-01/def"; "cluster-ns-03/xyz"]
  /\ defaultbinder.bound_status
       (defaultbinder.Bind demoBinder demoSubscription demoClusters) = None.
Proof. split; vm_compute; reflexivity. Qed.

Example run_parseClusterLabels :
  agent.parseClusterLabels "env=prod,,zone,a=b=c, k=v ,env=test"
  = Some {[ "env" := "test"; " k" := "v " ]}
  /\ agent.parseClusterLabels "   " = None.
Proof. split; vm_compute; reflexivity. Qed.

Ltac no_such_byte :=
  unfold hasByte; simpl; intros Hin;
  repeat (destruct Hin as [Hin|Hin]; [discriminate|]); exact Hin.

Ltac walk_members Ha :=
  vm_compute in Ha;
  repeat (apply elem_of_cons in Ha as [->|Ha]);
  [..|by apply elem_of_nil in Ha].

(** The demo hub and the same hub with its caches listed backwards. *)
Lemma getOverrides_lister_order_irrelevant_witness :
  @getOverrides demoPackages demoHub "default" (demoChartFeed "nginx")
  = @getOverrides demoPackages demoHubBackwards "default" (demoChartFeed "nginx").
Proof.
  apply (@getOverrides_lister_order_irrelevant demoPackages demoHub demoHubBackwards
           "default" (demoChartFeed "nginx") "uid-nginx"
           (take 3 demoGlobs) (reverse (take 3 demoGlobs))
           demoLocs (reverse demoLocs)).
  - vm_compute; reflexivity.
  - vm_compute; reflexivity.
  - vm_compute; reflexivity.
  - vm_compute; reflexivity.
  - vm_compute; reflexivity.
  - vm_compute; reflexivity.
  - symmetry. apply reverse_Permutation.
  - symmetry. apply reverse_Permutation.
  - intros a b Ha Hb Hp Hs. walk_members Ha; walk_members Hb;
      first [reflexivity|vm_compute in Hp; discriminate].
  - intros a b Ha Hb Hp Hs. walk_members Ha; walk_members Hb;
      first [reflexivity|vm_compute in Hp; discriminate].
Defined.

(** The order within the Globalizations and the Localizations of [nginx]. *)
Lemma getOverrides_order_within_kind_witness :
  exists (S : list Globalization) (T : list Localization),
    @getOverrides demoPackages demoHub "default" (demoChartFeed "nginx")
    = Ok (overridesOfGlobs S ++ overridesOfLocs T)
    /\ StronglySorted keyLeGlob S /\ StronglySorted keyLeLoc T.
Proof.
  destruct (@getOverrides_order_within_kind demoPackages demoHub "default"
              (demoChartFeed "nginx") "uid-nginx" (take 3 demoGlobs) demoLocs
              ltac:(vm_compute; reflexivity) ltac:(vm_compute; reflexivity)
              ltac:(vm_compute; reflexivity))
    as (S & T & Hrun & _ & HS & _ & _ & HT & _).
  exists S, T. split; [exact Hrun|]. split; [exact HS|exact HT].
Defined.

(** The overrides computed for [nginx] are those declared for it. *)
Lemma getOverrides_same_overrides_witness :
  exists result,
    @getOverrides demoPackages demoHub "default" (demoChartFeed "nginx") = Ok result
    /\ result ≡ₚ overridesOfGlobs (List.filter activeGlob (take 3 demoGlobs))
                 ++ overridesOfLocs (List.filter activeLoc demoLocs).
Proof.
  apply (@getOverrides_same_overrides demoPackages demoHub "default"
           (demoChartFeed "nginx") "uid-nginx" (take 3 demoGlobs) demoLocs);
    vm_compute; reflexivity.
Defined.

(** A Localization pending deletion with a policy that does not exist. *)
Lemma handler_unsupported_policy_witness :
  @handle demoPackages demoHub (ALocalization demoDeletedInvalid)
  = ([RecordedEvent "invalid" "Warning" "InvalidOverridePolicy"
        "unsupported OverridePolicy ApplyEventually"], None).
Proof.
  apply (@handler_unsupported_policy demoPackages demoHub
           (ALocalization demoDeletedInvalid)); discriminate.
Defined.

(** A Localization of an existing chart, to apply at once. *)
Lemma handler_apply_now_callback_witness :
  @handle demoPackages demoHub (ALocalization demoApplyNow)
  = @finalizerStep demoPackages demoHub (ALocalization demoApplyNow)
      [CalledChartCallback (demoChart "nginx")].
Proof.
  apply (@handler_apply_now_callback demoPackages demoHub (ALocalization demoApplyNow)
           (CalledChartCallback (demoChart "nginx")) None); [reflexivity|].
  left. split; [reflexivity|]. exists (demoChart "nginx").
  repeat split; vm_compute; reflexivity.
Defined.

(** The same Localization on a hub whose caches cannot be read. *)
Lemma handler_apply_now_lookup_error_witness :
  @handle demoPackages demoBrokenHub (ALocalization demoApplyNow)
  = ([], Some (ExternalError "cache is not synced")).
Proof.
  apply (@handler_apply_now_lookup_error demoPackages demoBrokenHub
           (ALocalization demoApplyNow)); [reflexivity|].
  left. repeat split; reflexivity.
Defined.

(** A Localization with the policy ApplyLater. *)
Lemma handler_apply_later_witness :
  @handle demoPackages demoHub (ALocalization demoDeletedLater)
  = @finalizerStep demoPackages demoHub (ALocalization demoDeletedLater) [].
Proof.
  apply (@handler_apply_later demoPackages demoHub (ALocalization demoDeletedLater));
    [discriminate|reflexivity].
Defined.

(** The demo description with its payloads emptied beforehand. *)
Lemma ApplyOverridesToDescription_helm_discards_raw_witness :
  @ApplyOverridesToDescription demoPackages demoHub (setRaw (demoDescription "Helm") [])
  = @ApplyOverridesToDescription demoPackages demoHub (demoDescription "Helm").
Proof.
  apply (@ApplyOverridesToDescription_helm_discards_raw demoPackages demoHub
           (demoDescription "Helm") []); reflexivity.
Defined.

(** The clusters of the test, given in either order. *)
Lemma Bind_order_irrelevant_witness :
  defaultbinder.Bind demoBinder demoSubscription demoClusters
  = defaultbinder.Bind demoBinder demoSubscription (reverse demoClusters).
Proof.
  apply (@Bind_order_irrelevant demoSubscriptionPackages demoBinder demoSubscription
           demoClusters (reverse demoClusters)).
  symmetry. apply reverse_Permutation.
Defined.

Section AgentRuns.

Import Stdlib.Strings.Ascii.

(** Three labels, one key given twice. *)
Lemma parseClusterLabels_round_trip_witness :
  agent.parseClusterLabels (agent.labelText demoLabels)
  = Some (list_to_map (reverse demoLabels)).
Proof.
  apply (parseClusterLabels_round_trip demoLabels); [discriminate|].
  repeat constructor; simpl; no_such_byte.
Defined.

(** The one label of a text with a piece that is none. *)
Lemma parseClusterLabels_sound_witness :
  "env=prod" ∈ agent.Split "env=prod,zone" ","
  /\ ~ hasByte "," "env" /\ ~ hasByte "=" "env"
  /\ ~ hasByte "," "prod" /\ ~ hasByte "=" "prod".
Proof.
  apply (parseClusterLabels_sound "env=prod,zone" {[ "env" := "prod" ]} "env" "prod");
    vm_compute; reflexivity.
Defined.

End AgentRuns.

(** One identifier, one name. *)
Lemma generateClusterRegistrationRequestName_inj_witness :
  "5f3b" = "5f3b".
Proof.
  apply (@generateClusterRegistrationRequestName_inj demoKnownNames "5f3b" "5f3b").
  reflexivity.
Defined.

(** A version that the demo registry holds. *)
Lemma FindOCIChart_found_iff_witness :
  exists found,
    utils.FindOCIChart (Ok demoRegistry) "oci://registry.example.com/charts"
      "nginx" "1.1.0" = Ok found
    /\ (found = true <-> "1.1.0" ∈ ["1.0.0"; "1.1.0"]).
Proof.
  apply (FindOCIChart_found_iff demoRegistry "oci://registry.example.com/charts"
           "nginx" "1.1.0" ["1.0.0"; "1.1.0"]); vm_compute; reflexivity.
Defined.

(** The address of the demo registry with and without the scheme. *)
Lemma FindOCIChart_scheme_irrelevant_witness :
  utils.FindOCIChart (Ok demoRegistry) ("oci://" +:+ "registry.example.com/charts")
    "nginx" "1.1.0"
  = utils.FindOCIChart (Ok demoRegistry) "registry.example.com/charts" "nginx" "1.1.0".
Proof.
  apply (FindOCIChart_scheme_irrelevant (Ok demoRegistry)
           "registry.example.com/charts" "nginx" "1.1.0").
  vm_compute; reflexivity.
Defined.

(** A chart located in a repository served over HTTPS. *)
Lemma LocateAuthHelmChart_installable_witness :
  utils.Metadata_Type (utils.mkHelmChart "/cache/nginx-1.0.0.tgz" "application" "1.0.0")
  = ""
  \/ utils.Metadata_Type (utils.mkHelmChart "/cache/nginx-1.0.0.tgz" "application" "1.0.0")
     = "application".
Proof.
  apply (LocateAuthHelmChart_installable demoLocateChart demoLoad
           "https://charts.example.com" "user" "secret" "nginx" "1.0.0"
           (utils.mkHelmChart "/cache/nginx-1.0.0.tgz" "application" "1.0.0")).
  vm_compute; reflexivity.
Defined.
